(** * Image captioning: caption preparation and Transformer decoder

    A shallow embedding of the two notebooks of the repository,
    [download_data.ipynb] (class [LoadFlickerData]) and [model.ipynb]
    (classes [PositionalEncoding], [TransformerDecoderLayer], [Decoder]),
    and the properties of their natural-language specification.

    Conventions.
    - A Python [int] is a [Z]; a list index or a vocabulary id, which the
      code only ever obtains from [enumerate] or [len], is a [nat].
    - A Python [str] is a [string]: a sequence of code points below 256.
      Python compares strings code point by code point, which is
      [String.leb].
    - A Python exception is a constructor of [exn]; a call that may raise
      returns a [result].
    - A [dict] whose iteration order is observed is an association list in
      insertion order; a [dict] only used as a map is a [gmap]. *)

From Stdlib Require Import ZArith List String Ascii Lia Reals.
From stdpp Require Import base option list strings gmap.

Local Open Scope string_scope.
Local Open Scope list_scope.
Local Open Scope Z_scope.

(** ** Python values, exceptions and built-ins *)

Module Py.

Inductive exn : Set :=
| KeyError | TypeError | ValueError | IndexError | RuntimeError
| ZeroDivisionError | FileNotFoundError | AssertionError.

Inductive result (A : Type) : Type :=
| Ok (a : A)
| Raise (e : exn).
Arguments Ok {A} a.
Arguments Raise {A} e.

Definition rbind {A B} (m : result A) (f : A -> result B) : result B :=
  match m with Ok a => f a | Raise e => Raise e end.

Definition raises {A} (m : result A) : Prop := exists e, m = Raise e.

Notation "x <~ m ;; k" := (rbind m (fun x => k))
  (at level 100, m at next level, right associativity).

(** [str.isspace] on one code point below 256. *)
Definition isspace (c : ascii) : bool :=
  let n := nat_of_ascii c in
  (((9 <=? n) && (n <=? 13)) || ((28 <=? n) && (n <=? 32))
   || (n =? 133) || (n =? 160))%nat.

Definition str_empty (s : string) : bool :=
  match s with EmptyString => true | _ => false end.

(** [s.split()]: maximal runs of non-space characters. [cur] is the run
    being read. *)
Fixpoint split_ws_from (cur s : string) : list string :=
  match s with
  | EmptyString => if str_empty cur then [] else [cur]
  | String c s' =>
      if isspace c
      then (if str_empty cur then split_ws_from "" s'
            else cur :: split_ws_from "" s')
      else split_ws_from (cur ++ String c "")%string s'
  end.

Definition str_split (s : string) : list string := split_ws_from "" s.

(** [s.split(sep)] for a one-character separator: never empty. *)
Fixpoint str_split_on (sep : ascii) (s : string) : list string :=
  match s with
  | EmptyString => [""]
  | String c s' =>
      match str_split_on sep s' with
      | [] => [String c ""]
      | h :: t => if Ascii.eqb c sep then "" :: h :: t else String c h :: t
      end
  end.

Fixpoint str_lstrip (s : string) : string :=
  match s with
  | EmptyString => ""
  | String c s' => if isspace c then str_lstrip s' else s
  end.

Fixpoint str_rstrip (s : string) : string :=
  match s with
  | EmptyString => ""
  | String c s' =>
      let r := str_rstrip s' in
      if str_empty r && isspace c then "" else String c r
  end.

Definition str_strip (s : string) : string := str_rstrip (str_lstrip s).

(** [l[:k]] for a Python int [k]: a negative [k] counts from the end. *)
Definition slice_to {A} (l : list A) (k : Z) : list A :=
  if k <? 0 then take (Z.to_nat (Z.of_nat (length l) + k)) l
  else take (Z.to_nat k) l.

(** [[x] * k]: empty for [k <= 0]. *)
Definition list_repeat {A} (x : A) (k : Z) : list A := replicate (Z.to_nat k) x.

(** [range(n)]. *)
Definition range (n : Z) : list Z := map Z.of_nat (seq 0 (Z.to_nat n)).

(** [sorted(l, key=..)] is stable: elements that compare equal keep their
    order. [le x y] says that [x] may stand before [y]; each element is
    put before the first later element it may stand before. *)
Fixpoint insert_sorted {A} (le : A -> A -> bool) (x : A) (l : list A) : list A :=
  match l with
  | [] => [x]
  | y :: l' => if le x y then x :: y :: l' else y :: insert_sorted le x l'
  end.

Definition sorted {A} (le : A -> A -> bool) (l : list A) : list A :=
  foldr (insert_sorted le) [] l.

(** The values a caller may pass as a subscript: an [int], a [str], [None],
    and an instance of a [str] subclass that defines [__index__]: it hashes
    and compares as the string [s], and a list takes it as the index [i]. *)
Inductive obj : Set :=
| PInt (z : Z)
| PStr (s : string)
| PNone
| PStrIndex (s : string) (i : Z).

(** [d[item]] for a dict with [str] keys, kept in insertion order. *)
Fixpoint assoc {V} (d : list (string * V)) (k : string) : option V :=
  match d with
  | [] => None
  | (k', v) :: d' => if String.eqb k k' then Some v else assoc d' k
  end.

Definition dict_getitem {V} (d : list (string * V)) (item : obj) : result V :=
  match item with
  | PStr k | PStrIndex k _ =>
      match assoc d k with Some v => Ok v | None => Raise KeyError end
  | PInt _ | PNone => Raise KeyError
  end.

(** [l[item]] for a list: an int, or a value with [__index__], indexes, from
    the end when negative; a plain [str] or [None] is a [TypeError]. *)
Definition list_getitem {A} (l : list A) (item : obj) : result A :=
  match item with
  | PInt i | PStrIndex _ i =>
      let n := Z.of_nat (length l) in
      let j := if i <? 0 then n + i else i in
      if (j <? 0) || (n <=? j) then Raise IndexError
      else match l !! Z.to_nat j with Some a => Ok a | None => Raise IndexError end
  | PStr _ | PNone => Raise TypeError
  end.

End Py.
Export Py.

(** ** torchtext's vocabulary *)

Module TorchText.

(** Modelled from the spec: [torchtext.vocab.Vocab], the library class that
    [__preprocess_caption__] instantiates, is not part of the repository.
    Following the spec's VocabularyBuilder, the specials come first in the
    order given, then every observed token by descending frequency with ties
    broken by token string; this is what the library's constructor does
    (it deletes the specials from the counter, sorts the items by token,
    sorts again stably by descending frequency, stops at a frequency
    below [min_freq = 1], and builds [stoi] as the reverse of [itos]). *)

Definition UNK : string := "<unk>".

Record Vocab : Type := mkVocab {
  freqs : gmap string nat;
  itos : list string;
  stoi : gmap string nat
}.

(** [key=lambda tup: tup[0]], and [key=lambda tup: tup[1], reverse=True]. *)
Definition by_token (x y : string * nat) : bool := String.leb x.1 y.1.
Definition by_freq_desc (x y : string * nat) : bool := (y.2 <=? x.2)%nat.

(** The loop that appends the sorted words, left at the first word whose
    frequency is below [min_freq]. *)
Fixpoint append_words (min_freq : nat) (wf : list (string * nat)) : list string :=
  match wf with
  | [] => []
  | (word, freq) :: wf' =>
      if (freq <? min_freq)%nat then [] else word :: append_words min_freq wf'
  end.

(** [{tok: i for i, tok in enumerate(itos)}]: a later index overwrites. *)
Definition reverse_dict (itos : list string) : gmap string nat :=
  foldl (fun m p => <[p.2 := p.1]> m) ∅ (imap pair itos).

Definition Vocab_init (counter : gmap string nat) (specials : list string) : Vocab :=
  let counter' := foldl (fun c tok => delete tok c) counter specials in
  let words_and_frequencies := sorted by_token (map_to_list counter') in
  let words_and_frequencies := sorted by_freq_desc words_and_frequencies in
  let itos := specials ++ append_words 1 words_and_frequencies in
  mkVocab counter itos (reverse_dict itos).

(** [vocab[token]], that is [stoi.get(token, stoi.get(UNK))]. Every
    vocabulary of this program has [UNK] among its specials, so the inner
    [get] finds it ([stoi_UNK] below); the [0] stands for the [None] that
    [get] would return otherwise. *)
Definition Vocab_getitem (v : Vocab) (token : string) : nat :=
  match stoi v !! token with
  | Some i => i
  | None => default 0%nat (stoi v !! UNK)
  end.

Definition Vocab_len (v : Vocab) : nat := length (itos v).

(** Modelled from the spec: the [id -> token] lookup. The repository never
    maps an id back to a token; the spec's VocabularyBuilder gives an
    operation that returns the token of an assigned id and fails with an
    out-of-range error for any other id, here [IndexError]. *)
Definition id_to_token (v : Vocab) (i : Z) : result string :=
  if (i <? 0) || (Z.of_nat (length (itos v)) <=? i) then Raise IndexError
  else match itos v !! Z.to_nat i with
       | Some t => Ok t
       | None => Raise IndexError
       end.

(** [Counter.update(tokens)]. *)
Definition Counter_update (counter : gmap string nat) (tokens : list string)
  : gmap string nat :=
  foldl (fun c t => <[t := S (default 0%nat (c !! t))]> c) counter tokens.

End TorchText.
Export TorchText.

(** ** download_data.ipynb: class LoadFlickerData *)

Module DownloadData.

(** What a run does besides computing its result. *)
Inductive event : Set :=
| OpenFile (path : string)
| Tokenize (caption : string)
| BuildVocab
| ReadImage (path : string).

(** A computation: the events it performed, in order, and its outcome. *)
Definition M (A : Type) : Type := list event * result A.

Definition ret {A} (a : A) : M A := ([], Ok a).
Definition raise {A} (e : exn) : M A := ([], Raise e).
Definition emit (e : event) : M unit := ([e], Ok tt).
Definition lift {A} (r : result A) : M A := ([], r).
Definition bind {A B} (m : M A) (f : A -> M B) : M B :=
  match m with
  | (t, Ok a) => let (t', r) := f a in (t ++ t', r)
  | (t, Raise e) => (t, Raise e)
  end.
Definition trace {A} (m : M A) : list event := fst m.
Definition outcome {A} (m : M A) : result A := snd m.

Notation "x <- m ;; k" := (bind m (fun x => k))
  (at level 100, m at next level, right associativity).
Notation "m ;;; k" := (bind m (fun _ => k))
  (at level 100, right associativity).

(** A [for] loop threading the variables it assigns. *)
Fixpoint for_each {A S} (l : list A) (body : S -> A -> M S) (s : S) : M S :=
  match l with
  | [] => ret s
  | a :: l' => s' <- body s a ;; for_each l' body s'
  end.

(** The values of the mapping handed to [__preprocess_caption__]: the
    list of captions of the class comment, or the per-image dict that
    [to_dict(orient='index')] makes. *)
Inductive value : Type :=
| CaptionList (captions : list string)
| RecordDict (fields : list (string * string)).

(** [for caption in captions]: a list yields its elements, a dict its keys. *)
Definition iterate (v : value) : list string :=
  match v with
  | CaptionList l => l
  | RecordDict d => d.*1
  end.

(** [v[key]] for a [str] key. *)
Definition value_getitem (v : value) (key : string) : result string :=
  match v with
  | CaptionList _ => Raise TypeError
  | RecordDict d => match assoc d key with Some x => Ok x | None => Raise KeyError end
  end.

Record LoadFlickerData : Type := mkLoadFlickerData {
  path : string;
  data : list (string * value);
  tokenizer : string -> list string;
  vocab : option Vocab;
  max_seq_length : Z
}.

(** [self.data[image_id].append(caption)] on a [defaultdict(list)]. *)
Fixpoint dd_append (image_id caption : string) (d : list (string * list string))
  : list (string * list string) :=
  match d with
  | [] => [(image_id, [caption])]
  | (k, vs) :: d' =>
      if String.eqb image_id k then (k, vs ++ [caption]) :: d'
      else (k, vs) :: dd_append image_id caption d'
  end.

Definition tab : ascii := ascii_of_nat 9.

(** The body of both reading loops. *)
Definition read_line (d : list (string * list string)) (line : string)
  : M (list (string * list string)) :=
  match str_split_on tab (str_strip line) with
  | [image_id; caption] =>
      match str_split_on "."%char image_id with
      | image_id :: _ => ret (dd_append image_id caption d)
      | [] => raise IndexError
      end
  | _ => raise ValueError
  end.

(** [open(p)] and the lines of the file, [fs] being the file system. *)
Definition open_lines (fs : string -> option (list string)) (p : string)
  : M (list string) :=
  emit (OpenFile p) ;;;
  match fs p with
  | Some lines => ret lines
  | None => raise FileNotFoundError
  end.

(** [x[0]]. *)
Definition first_caption (captions : list string) : M string :=
  match captions with
  | c :: _ => ret c
  | [] => raise IndexError
  end.

(** The data frame turned into [{image_id: {'captions': .., 'image_path': ..}}]. *)
Definition to_records (path : string) (d : list (string * list string))
  : M (list (string * value)) :=
  for_each d (fun rows '(image_id, captions) =>
    let image_path := (path ++ "/Images/" ++ image_id ++ ".jpg")%string in
    c <- first_caption captions ;;
    ret (rows ++ [(image_id, RecordDict [("captions", c); ("image_path", image_path)])]))
    [].

Definition load_data (fs : string -> option (list string)) (self : LoadFlickerData)
  : M LoadFlickerData :=
  let path_to_tokens := (path self ++ "/Flickr8k.token.txt")%string in
  let path_to_lemmas := (path self ++ "/Flickr8k.lemma.token.txt")%string in
  lines <- open_lines fs path_to_tokens ;;
  d <- for_each lines read_line [] ;;
  lines <- open_lines fs path_to_lemmas ;;
  d <- for_each lines read_line d ;;
  records <- to_records (path self) d ;;
  ret (mkLoadFlickerData (path self) records (tokenizer self) (vocab self)
         (max_seq_length self)).

Definition init (fs : string -> option (list string)) (dataset_path : string)
    (max_seq_length : Z) (tokenizer : string -> list string) : M LoadFlickerData :=
  load_data fs (mkLoadFlickerData dataset_path [] tokenizer None max_seq_length).

Definition specials : list string := ["<unk>"; "<pad>"; "<bos>"; "<eos>"].

(** [torch.ones(n, dtype=torch.bool)] for a size in the int64 range that
    torch accepts, [n < 2^63]: a negative size is a [RuntimeError]. The
    theorems that state a result for every size carry that bound. *)
Definition torch_ones (n : Z) : result (list bool) :=
  if n <? 0 then Raise RuntimeError else Ok (replicate (Z.to_nat n) true).

(** [mask[k:] = False]. *)
Definition mask_clear_from (mask : list bool) (k : nat) : list bool :=
  take k mask ++ replicate (length mask - k)%nat false.

(** One caption, once tokenized: ids with [<bos>] and [<eos>], then padding
    or truncation to [max_seq_length], and the attention mask. *)
Definition encode_tokens (vocab : Vocab) (max_seq_length : Z) (words : list string)
  : result (list nat * list bool) :=
  let tokens := map (Vocab_getitem vocab) words in
  let tokens := [Vocab_getitem vocab "<bos>"] ++ tokens ++ [Vocab_getitem vocab "<eos>"] in
  rbind (torch_ones max_seq_length) (fun mask =>
    if Z.of_nat (length tokens) <=? max_seq_length then
      let pad_starts := length tokens in
      let tokens :=
        tokens ++ list_repeat (Vocab_getitem vocab "<pad>")
                    (max_seq_length - Z.of_nat (length tokens)) in
      Ok (tokens, mask_clear_from mask pad_starts)
    else
      Ok (slice_to tokens (max_seq_length - 1) ++ [Vocab_getitem vocab "<eos>"], mask)).

(** Once a mask value is [false], every later one is. *)
Definition monotone_mask (mask : list bool) : Prop :=
  forall i j, (i <= j)%nat -> (j < length mask)%nat ->
    mask !! i = Some false -> mask !! j = Some false.

(** How many times an id occurs in a sequence. *)
Definition count_id (ids : list nat) (i : nat) : nat := count_occ Nat.eq_dec ids i.

Definition tokenize (self : LoadFlickerData) (caption : string) : M (list string) :=
  emit (Tokenize caption) ;;; ret (tokenizer self caption).

Definition encode_caption (self : LoadFlickerData) (vocab : Vocab) (caption : string)
  : M (list nat * list bool) :=
  words <- tokenize self caption ;;
  lift (encode_tokens vocab (max_seq_length self) words).

Definition build_vocab (counter : gmap string nat) : M Vocab :=
  emit BuildVocab ;;; ret (Vocab_init counter specials).

(** [counter.update(self.tokenizer(caption))]. *)
Definition count_words (self : LoadFlickerData) (counter : gmap string nat)
    (caption : string) : M (gmap string nat) :=
  words <- tokenize self caption ;; ret (Counter_update counter words).

Definition preprocess_caption (self : LoadFlickerData) (image_data : list (string * value))
  : M (Vocab * list (list nat) * list (list bool)) :=
  counter <- for_each image_data (fun counter '(image_id, captions) =>
      for_each (iterate captions) (count_words self) counter) ∅ ;;
  vocab <- build_vocab counter ;;
  arrays <-
    for_each image_data (fun arrays '(image_id, captions) =>
      for_each (iterate captions) (fun '(tokens_arrays, attention_masks) caption =>
        encoded <- encode_caption self vocab caption ;;
        let '(tokens, mask) := encoded in
        ret (tokens_arrays ++ [tokens], attention_masks ++ [mask])) arrays) ([], []) ;;
  let '(tokens_arrays, attention_masks) := arrays in
  ret (vocab, tokens_arrays, attention_masks).

Section GetItem.

(** [__preprocess_image__] reads and resizes the file with OpenCV; only
    that it is called, and may raise, matters here. *)
Variable image : Type.
Variable preprocess_image : string -> result image.

Record sample : Type := mkSample {
  sample_image : image;
  caption_tokens : list nat;
  captions : string;
  attention_mask : list bool
}.

Definition getitem (self : LoadFlickerData) (item : obj) : M sample :=
  preprocessed <- preprocess_caption self (data self) ;;
  let '(vocab, tokens_arrays, attention_masks) := preprocessed in
  record <- lift (dict_getitem (data self) item) ;;
  image_path <- lift (value_getitem record "image_path") ;;
  emit (ReadImage image_path) ;;;
  image <- lift (preprocess_image image_path) ;;
  tokens <- lift (list_getitem tokens_arrays item) ;;
  record <- lift (dict_getitem (data self) item) ;;
  caption <- lift (value_getitem record "captions") ;;
  mask <- lift (list_getitem attention_masks item) ;;
  ret (mkSample image tokens caption mask).

End GetItem.

(** The mapping that [load_data] leaves in [self.data]: every value is a
    dict with the keys ['captions'] and ['image_path'], in this order. *)
Definition stored_shape (d : list (string * value)) : Prop :=
  Forall (fun kv => exists c p, kv.2 = RecordDict [("captions", c); ("image_path", p)]) d.

Definition is_tokenize (e : event) : Prop := exists c, e = Tokenize c.
Definition is_read_image (e : event) : Prop := exists p, e = ReadImage p.

(** A run that neither builds a vocabulary nor tokenizes a caption. *)
Definition pure_lookup (t : list event) : Prop :=
  (BuildVocab ∉ t) /\ forall c, Tokenize c ∉ t.

(** A file system that holds the two annotation files of a dataset. *)
Definition annotation_files (dataset_path : string) (tokens lemmas : list string)
    (p : string) : option (list string) :=
  if String.eqb p (dataset_path ++ "/Flickr8k.token.txt")%string then Some tokens
  else if String.eqb p (dataset_path ++ "/Flickr8k.lemma.token.txt")%string then Some lemmas
  else None.

(** A line of an annotation file. *)
Definition annotation (image_file caption : string) : string :=
  (image_file ++ String tab caption ++ String (ascii_of_nat 10) "")%string.

Definition dog_files : string -> option (list string) :=
  annotation_files "/Flicker8k_Dataset"
    [annotation "1.jpg#0" "A dog runs"; annotation "1.jpg#1" "The dog is fast";
     annotation "2.jpg#0" "A cat sleeps"]
    [annotation "1.jpg#0" "A dog run"; annotation "2.jpg#0" "A cat sleep"].

Definition bird_files : string -> option (list string) :=
  annotation_files "/Flicker8k_Dataset"
    [annotation "7.jpg#0" "Two birds over the sea"; annotation "8.jpg#0" "Snow"]
    [annotation "7.jpg#0" "Two bird over the sea"; annotation "8.jpg#0" "Snow"].

(** What [load_data] stores for [dog_files]. *)
Definition dog_loader : LoadFlickerData :=
  mkLoadFlickerData "/Flicker8k_Dataset"
    [("1", RecordDict [("captions", "A dog runs");
                       ("image_path", "/Flicker8k_Dataset/Images/1.jpg")]);
     ("2", RecordDict [("captions", "A cat sleeps");
                       ("image_path", "/Flicker8k_Dataset/Images/2.jpg")])]
    str_split None 6.

(** What [load_data] stores for [bird_files]. *)
Definition bird_loader : LoadFlickerData :=
  mkLoadFlickerData "/Flicker8k_Dataset"
    [("7", RecordDict [("captions", "Two birds over the sea");
                       ("image_path", "/Flicker8k_Dataset/Images/7.jpg")]);
     ("8", RecordDict [("captions", "Snow");
                       ("image_path", "/Flicker8k_Dataset/Images/8.jpg")])]
    str_split None 6.

#[global] Instance event_eq_dec : EqDecision event.
Proof. solve_decision. Defined.

(** The loader of the notebook's last cell: [lambda x: x.split()]. *)
Definition whitespace_loader (max_seq_length : Z) : LoadFlickerData :=
  mkLoadFlickerData "/Flicker8k_Dataset" [] str_split None max_seq_length.

(** Every string that the two loops of [__preprocess_caption__] iterate
    over, in order. *)
Definition corpus_strings (image_data : list (string * value)) : list string :=
  concat (map (fun kv => iterate kv.2) image_data).

(** The counter after the first loop. *)
Definition corpus_counter (self : LoadFlickerData) (image_data : list (string * value))
  : gmap string nat :=
  foldl (fun counter caption => Counter_update counter (tokenizer self caption))
    ∅ (corpus_strings image_data).


(** The body of the loop that encodes, with the two lists it appends to. *)
Definition encode_body (self : LoadFlickerData) (v : Vocab)
    (arrays : list (list nat) * list (list bool)) (caption : string)
  : M (list (list nat) * list (list bool)) :=
  let '(tokens_arrays, attention_masks) := arrays in
  encoded <- encode_caption self v caption ;;
  let '(tokens, mask) := encoded in
  ret (tokens_arrays ++ [tokens], attention_masks ++ [mask]).

(** A line of an annotation file that the reading loops accept, and the
    image id and caption they take from it. *)
Definition parsed_as (line : string) (entry : string * string) : Prop :=
  exists image_file rest,
    str_split_on tab (str_strip line) = [image_file; entry.2] /\
    str_split_on "."%char image_file = entry.1 :: rest.

(** The grouping dict against the entries read so far: a key holds the
    captions of its entries, the first one first. *)
Definition groups (d : list (string * list string)) (entries : list (string * string))
  : Prop :=
  (forall k, assoc d k ≫= head = assoc entries k) /\
  Forall (fun kv => kv.2 <> []) d /\
  NoDup d.*1.

(** The dict that [to_dict] makes for one image. *)
Definition record_of (path image_id caption : string) : value :=
  RecordDict [("captions", caption);
              ("image_path", (path ++ "/Images/" ++ image_id ++ ".jpg")%string)].

End DownloadData.
Export DownloadData.

(** ** model.ipynb *)

Module Model.

(** *** PositionalEncoding *)

(** A rank-3 tensor: its shape and its entries. Entries are real numbers:
    the rounding of [float32] is left out. *)
Record tensor3 : Type := mkTensor3 {
  size0 : nat;
  size1 : nat;
  size2 : nat;
  at3 : nat -> nat -> nat -> R
}.

Definition zeros3 (n0 n1 n2 : nat) : tensor3 := mkTensor3 n0 n1 n2 (fun _ _ _ => 0%R).

(** [self.dropout] is a [torch.nn.Dropout] layer: the identity at inference. *)
Record PositionalEncoding : Type := mkPositionalEncoding {
  pe_dropout : tensor3 -> tensor3;
  pe : tensor3
}.

(** [torch.exp(torch.arange(0, d_model, 2).float() * (-math.log(10000.0) / d_model))],
    entry [i]. *)
Definition div_term (d_model : Z) (i : nat) : R :=
  exp (INR (2 * i) * (- ln 10000 / IZR d_model)).

(** Entry [[position, feature]] of the table after the two slice
    assignments [pe[:, 0::2] = sin(..)] and [pe[:, 1::2] = cos(..)]. *)
Definition pe_entry (d_model : Z) (position feature : nat) : R :=
  if Nat.even feature
  then sin (INR position * div_term d_model (feature / 2))
  else cos (INR position * div_term d_model (feature / 2)).

(** [__init__], given the dropout layer. [torch.zeros] rejects a negative
    size; [-math.log(10000.0) / d_model] divides by zero for [d_model = 0];
    for an odd [d_model > 1] the columns [1::2] are fewer than the entries
    of [div_term] and the second assignment raises (for [d_model = 1] its
    target is empty). The buffer has shape [[1, max_len, d_model]]. *)
Definition PositionalEncoding_init (dropout : tensor3 -> tensor3) (d_model max_len : Z)
  : result PositionalEncoding :=
  if (max_len <? 0) || (d_model <? 0) then Raise RuntimeError
  else if d_model =? 0 then Raise ZeroDivisionError
  else if Z.odd d_model && (1 <? d_model) then Raise RuntimeError
  else Ok (mkPositionalEncoding dropout
             (mkTensor3 1 (Z.to_nat max_len) (Z.to_nat d_model)
                (fun _ position feature => pe_entry d_model position feature))).

(** Broadcasting of one dimension, and the index read in an operand. *)
Definition broadcast_dim (a b : nat) : result nat :=
  if (a =? b)%nat then Ok a
  else if (a =? 1)%nat then Ok b
  else if (b =? 1)%nat then Ok a
  else Raise RuntimeError.

Definition broadcast_index (size i : nat) : nat := if (size =? 1)%nat then 0%nat else i.

(** [x + y] on tensors. *)
Definition tensor_add (x y : tensor3) : result tensor3 :=
  n2 <~ broadcast_dim (size2 x) (size2 y) ;;
  n1 <~ broadcast_dim (size1 x) (size1 y) ;;
  n0 <~ broadcast_dim (size0 x) (size0 y) ;;
  Ok (mkTensor3 n0 n1 n2 (fun i j k =>
        (at3 x (broadcast_index (size0 x) i) (broadcast_index (size1 x) j)
               (broadcast_index (size2 x) k)
         + at3 y (broadcast_index (size0 y) i) (broadcast_index (size1 y) j)
                 (broadcast_index (size2 y) k))%R)).

(** [t[:, :n]]. *)
Definition slice_dim1 (t : tensor3) (n : nat) : tensor3 :=
  mkTensor3 (size0 t) (Nat.min n (size1 t)) (size2 t) (at3 t).

Definition PositionalEncoding_forward (self : PositionalEncoding) (x : tensor3)
  : result tensor3 :=
  x <~ tensor_add x (slice_dim1 (pe self) (size1 x)) ;;
  Ok (pe_dropout self x).

(** *** TransformerDecoderLayer and Decoder *)

Section Decoder.

(** Tensors and the layers of [torch.nn] are kept abstract: a layer is its
    forward function, which may raise on a shape mismatch. [float] is the
    type of the dropout probability. *)
Variable tensor : Type.
Variable float : Type.
Variable tensor_plus : tensor -> tensor -> result tensor.

Definition attention : Type :=
  tensor -> tensor -> tensor -> option tensor -> result (tensor * tensor).

Variable new_MultiheadAttention : Z -> Z -> float -> result attention.
Variable new_LayerNorm : Z -> result (tensor -> result tensor).
Variable new_PositionwiseFF : Z -> Z -> float -> result (tensor -> result tensor).
Variable new_Dropout : float -> result (tensor -> tensor).
Variable new_Linear : Z -> Z -> result (tensor -> result tensor).

Record TransformerDecoderLayer : Type := mkTransformerDecoderLayer {
  self_attn : attention;
  self_attn_norm : tensor -> result tensor;
  cross_attn : attention;
  cross_attn_norm : tensor -> result tensor;
  ffn : tensor -> result tensor;
  ffn_norm : tensor -> result tensor;
  layer_dropout : tensor -> tensor
}.

Definition TransformerDecoderLayer_init (d_model n_head d_ffn : Z) (dropout : float)
  : result TransformerDecoderLayer :=
  self_attn <~ new_MultiheadAttention d_model n_head dropout ;;
  self_attn_norm <~ new_LayerNorm d_model ;;
  cross_attn <~ new_MultiheadAttention d_model n_head dropout ;;
  cross_attn_norm <~ new_LayerNorm d_model ;;
  ffn <~ new_PositionwiseFF d_model d_ffn dropout ;;
  ffn_norm <~ new_LayerNorm d_model ;;
  drop <~ new_Dropout dropout ;;
  Ok (mkTransformerDecoderLayer self_attn self_attn_norm cross_attn cross_attn_norm
        ffn ffn_norm drop).

(** The value of the [return] statement is a Python tuple: the list of its
    components. *)
Definition TransformerDecoderLayer_forward (self : TransformerDecoderLayer)
    (tgt memory : tensor) (tgt_mask memory_mask : option tensor) : result (list tensor) :=
  r <~ self_attn self tgt tgt tgt tgt_mask ;;
  let '(tgt2, masked_self_attn_weights) := r in
  tgt <~ tensor_plus tgt (layer_dropout self tgt2) ;;
  tgt <~ self_attn_norm self tgt ;;
  r <~ cross_attn self tgt memory memory memory_mask ;;
  let '(tgt2, cross_attn_weights) := r in
  tgt <~ tensor_plus tgt (layer_dropout self tgt2) ;;
  tgt <~ cross_attn_norm self tgt ;;
  tgt2 <~ ffn self tgt ;;
  tgt <~ tensor_plus tgt (layer_dropout self tgt2) ;;
  tgt <~ ffn_norm self tgt ;;
  Ok [tgt; masked_self_attn_weights].

Record Decoder : Type := mkDecoder {
  layers : list TransformerDecoderLayer;
  decoder_dropout : tensor -> tensor;
  output_projection : tensor -> result tensor
}.

(** The list comprehension over [range(num_layers)]. *)
Fixpoint new_layers (d_model n_head d_ffn : Z) (dropout : float) (r : list Z)
  : result (list TransformerDecoderLayer) :=
  match r with
  | [] => Ok []
  | _ :: r' =>
      layer <~ TransformerDecoderLayer_init d_model n_head d_ffn dropout ;;
      rest <~ new_layers d_model n_head d_ffn dropout r' ;;
      Ok (layer :: rest)
  end.

Definition Decoder_init (vocab_size d_model n_head d_ffn num_layers max_seq_length : Z)
    (dropout : float) : result Decoder :=
  layers <~ new_layers d_model n_head d_ffn dropout (range num_layers) ;;
  drop <~ new_Dropout dropout ;;
  output_projection <~ new_Linear d_model vocab_size ;;
  Ok (mkDecoder layers drop output_projection).

(** Assignment of a tuple to three names. *)
Definition unpack3 (t : list tensor) : result (tensor * tensor * tensor) :=
  match t with
  | [a; b; c] => Ok (a, b, c)
  | _ => Raise ValueError
  end.

(** The [for layer in self.layers] loop; [tgt] is the variable it reassigns. *)
Fixpoint Decoder_layers (ls : list TransformerDecoderLayer) (tgt memory : tensor)
    (tgt_mask memory_mask : option tensor) : result tensor :=
  match ls with
  | [] => Ok tgt
  | layer :: ls' =>
      t <~ TransformerDecoderLayer_forward layer tgt memory tgt_mask memory_mask ;;
      u <~ unpack3 t ;;
      let '(tgt, masked_self_attn_weights, cross_attn_weights) := u in
      Decoder_layers ls' tgt memory tgt_mask memory_mask
  end.

Definition Decoder_forward (self : Decoder) (tgt memory : tensor)
    (tgt_mask memory_mask : option tensor) : result tensor :=
  tgt <~ Decoder_layers (layers self) tgt memory tgt_mask memory_mask ;;
  output_projection self tgt.

End Decoder.

Arguments TransformerDecoderLayer_forward {tensor} tensor_plus self tgt memory
  tgt_mask memory_mask.
Arguments unpack3 {tensor} t.
Arguments Decoder_layers {tensor} tensor_plus ls tgt memory tgt_mask memory_mask.
Arguments Decoder_forward {tensor} tensor_plus self tgt memory tgt_mask memory_mask.
Arguments Decoder_init {tensor float} new_MultiheadAttention new_LayerNorm
  new_PositionwiseFF new_Dropout new_Linear vocab_size d_model n_head d_ffn
  num_layers max_seq_length dropout.
Arguments mkDecoder {tensor} layers decoder_dropout output_projection.
Arguments layers {tensor} d.
Arguments output_projection {tensor} d.

(** The simplest instance: a tensor is an integer, attention returns its
    value argument with weight 0, and every other layer is the identity. *)
Definition scalar_plus (a b : Z) : result Z := Ok (a + b).
Definition scalar_attention : attention Z := fun q k v _ => Ok (v, 0).
Definition scalar_layer : Z -> result Z := fun t => Ok t.

Definition scalar_Decoder (vocab_size d_model n_head d_ffn num_layers max_seq_length : Z)
  : result (Decoder Z) :=
  Decoder_init (float := unit)
    (fun _ _ _ => Ok scalar_attention) (fun _ => Ok scalar_layer)
    (fun _ _ _ => Ok scalar_layer) (fun _ => Ok (fun t => t))
    (fun _ _ => Ok scalar_layer)
    vocab_size d_model n_head d_ffn num_layers max_seq_length tt.

(** *** ImageClassificationModel *)

Section Captioning.

(** [Encoder] wraps a pretrained network: only its construction and its
    forward function, both of which may raise, are kept. [dropout_default]
    is the float [0.1]. *)
Variable tensor float image device : Type.
Variable tensor_plus : tensor -> tensor -> result tensor.
Variable new_MultiheadAttention : Z -> Z -> float -> result (attention tensor).
Variable new_LayerNorm : Z -> result (tensor -> result tensor).
Variable new_PositionwiseFF : Z -> Z -> float -> result (tensor -> result tensor).
Variable new_Dropout : float -> result (tensor -> tensor).
Variable new_Linear : Z -> Z -> result (tensor -> result tensor).
Variable new_Encoder : Z -> result (image -> result tensor).
Variable to_device : device -> result unit.
Variable dropout_default : float.

Record ImageClassificationModel : Type := mkImageClassificationModel {
  model_encoder : image -> result tensor;
  model_decoder : Decoder tensor;
  model_vocab_size : Z;
  model_max_seq_length : Z;
  model_d_model : Z;
  model_n_head : Z;
  model_d_ffn : Z;
  model_dropout : float;
  model_image_size : Z
}.

Definition ImageClassificationModel_forward (self : ImageClassificationModel)
    (image_ : image) (tgt : tensor) (tgt_mask : option tensor) : result tensor :=
  image_features <~ model_encoder self image_ ;;
  Decoder_forward tensor_plus (model_decoder self) tgt image_features tgt_mask None.

Definition create_model (device_ : device) (vocab_size max_seq_length d_model n_head d_ffn : Z)
    (dropout : float) : result ImageClassificationModel :=
  encoder <~ new_Encoder 512 ;;
  decoder <~ Decoder_init new_MultiheadAttention new_LayerNorm new_PositionwiseFF
               new_Dropout new_Linear vocab_size d_model n_head d_ffn 6 max_seq_length
               dropout ;;
  let model := mkImageClassificationModel encoder decoder vocab_size max_seq_length
                 512 8 2048 dropout_default 224 in
  moved <~ to_device device_ ;;
  Ok model.

End Captioning.

Arguments model_decoder {tensor float image} i.
Arguments model_d_model {tensor float image} i.
Arguments ImageClassificationModel_forward {tensor float image} tensor_plus self image_
  tgt tgt_mask.
Arguments create_model {tensor float image device} new_MultiheadAttention new_LayerNorm
  new_PositionwiseFF new_Dropout new_Linear new_Encoder to_device dropout_default
  device_ vocab_size max_seq_length d_model n_head d_ffn dropout.

(** The captioning model over the simplest instance. *)
Definition scalar_model (vocab_size max_seq_length d_model n_head d_ffn : Z)
  : result (ImageClassificationModel Z unit Z) :=
  create_model (device := unit)
    (fun _ _ _ => Ok scalar_attention) (fun _ => Ok scalar_layer)
    (fun _ _ _ => Ok scalar_layer) (fun _ => Ok (fun t => t))
    (fun _ _ => Ok scalar_layer) (fun _ => Ok scalar_layer) (fun _ => Ok tt) tt
    tt vocab_size max_seq_length d_model n_head d_ffn tt.

End Model.
Export Model.

(** * Properties *)

(** ** The computation monad *)

Section Computations.
Context {A B : Type}.

Lemma outcome_bind (m : M A) (f : A -> M B) :
  outcome (bind m f) =
  match outcome m with Ok a => outcome (f a) | Raise e => Raise e end.
Proof. destruct m as [t [a|e]]; simpl; [destruct (f a)|]; reflexivity. Qed.

Lemma trace_bind (m : M A) (f : A -> M B) :
  trace (bind m f) =
  trace m ++ match outcome m with Ok a => trace (f a) | Raise _ => [] end.
Proof.
  destruct m as [t [a|e]]; simpl; [destruct (f a); reflexivity|].
  symmetry; apply app_nil_r.
Qed.

Lemma bind_ext (m : M A) (f g : A -> M B) :
  (forall a, f a = g a) -> bind m f = bind m g.
Proof. intros E. destruct m as [t [a|e]]; simpl; [rewrite E|]; reflexivity. Qed.

End Computations.

Lemma for_each_ext {A1 A2 S} (l1 : list A1) (l2 : list A2)
    (f : S -> A1 -> M S) (g : S -> A2 -> M S) :
  Forall2 (fun a b => forall s, f s a = g s b) l1 l2 ->
  forall s, for_each l1 f s = for_each l2 g s.
Proof.
  induction 1 as [|a b l1 l2 Hab _ IH]; intros s; simpl; [reflexivity|].
  rewrite Hab. apply bind_ext, IH.
Qed.

(** ** The vocabulary *)

Lemma insert_sorted_Permutation {A} (le : A -> A -> bool) (x : A) (l : list A) :
  insert_sorted le x l ≡ₚ x :: l.
Proof.
  induction l as [|y l IH]; cbn [insert_sorted]; [done|].
  destruct (le x y); [done|]. rewrite IH. apply Permutation_swap.
Qed.

Lemma sorted_Permutation {A} (le : A -> A -> bool) (l : list A) : sorted le l ≡ₚ l.
Proof.
  induction l as [|x l IH]; [done|].
  unfold sorted in *. cbn [foldr]. by rewrite insert_sorted_Permutation, IH.
Qed.

Lemma reverse_dict_snoc (l : list string) (t : string) :
  reverse_dict (l ++ [t]) = <[t := length l]> (reverse_dict l).
Proof.
  unfold reverse_dict. rewrite imap_app, foldl_app. simpl.
  by rewrite Nat.add_0_r.
Qed.

Lemma reverse_dict_lookup_Some (l : list string) (t : string) (i : nat) :
  reverse_dict l !! t = Some i -> l !! i = Some t.
Proof.
  revert i; induction l as [|x l IH] using rev_ind; intros i.
  - unfold reverse_dict; simpl. by rewrite lookup_empty.
  - rewrite reverse_dict_snoc. destruct (decide (x = t)) as [->|Hne].
    + rewrite lookup_insert_eq. intros [= <-]. by rewrite list_lookup_middle.
    + rewrite lookup_insert_ne by done. intros H%IH.
      rewrite lookup_app_l; [done|]. by eapply lookup_lt_Some.
Qed.

Lemma reverse_dict_lookup_None (l : list string) (t : string) :
  reverse_dict l !! t = None <-> t ∉ l.
Proof.
  induction l as [|x l IH] using rev_ind.
  - unfold reverse_dict; simpl. rewrite lookup_empty. split; [|done].
    intros _ H. by apply elem_of_nil in H.
  - rewrite reverse_dict_snoc, not_elem_of_app, <- IH.
    destruct (decide (x = t)) as [->|Hne].
    + rewrite lookup_insert_eq. split; [done|]. intros [_ H]. exfalso. apply H. by left.
    + rewrite lookup_insert_ne by done. split; [|tauto].
      intros H; split; [done|]. intros Hin. apply list_elem_of_singleton in Hin. congruence.
Qed.

Lemma reverse_dict_app_notin (l1 l2 : list string) (t : string) :
  t ∉ l2 -> reverse_dict (l1 ++ l2) !! t = reverse_dict l1 !! t.
Proof.
  induction l2 as [|x l2 IH] using rev_ind; intros Hn.
  - by rewrite app_nil_r.
  - apply not_elem_of_app in Hn as [Hn2 Hx].
    rewrite app_assoc, reverse_dict_snoc, lookup_insert_ne; [by apply IH|].
    intros ->. apply Hx. by left.
Qed.

Lemma lookup_delete_specials (c : gmap string nat) (sp : list string) (t : string) :
  foldl (fun c tok => delete tok c) c sp !! t = if decide (t ∈ sp) then None else c !! t.
Proof.
  revert c; induction sp as [|x sp IH]; intros c.
  - case_decide as H; [by apply elem_of_nil in H|done].
  - cbn [foldl]. rewrite IH. destruct (decide (t = x)) as [->|Hne].
    + rewrite lookup_delete_eq, (decide_True (P := x ∈ x :: sp)) by set_solver.
      by case_decide.
    + rewrite lookup_delete_ne by done.
      destruct (decide (t ∈ sp)).
      * rewrite decide_True by set_solver. reflexivity.
      * rewrite decide_False; [reflexivity|]. by intros [?|?]%elem_of_cons.
Qed.

Lemma elem_of_append_words (min_freq : nat) (wf : list (string * nat)) (t : string) :
  t ∈ append_words min_freq wf -> exists f, (t, f) ∈ wf.
Proof.
  induction wf as [|[w f] wf IH]; simpl.
  - intros H. by apply elem_of_nil in H.
  - destruct (f <? min_freq)%nat; [intros H; by apply elem_of_nil in H|].
    intros [->|H]%elem_of_cons.
    + exists f. by left.
    + destruct (IH H) as [f' Hf']. exists f'. by right.
Qed.

(** A word listed after the specials is a key of the counter and is not
    itself a special. *)
Lemma Vocab_words (counter : gmap string nat) (sp : list string) (t : string) :
  t ∈ drop (length sp) (itos (Vocab_init counter sp)) ->
  (t ∉ sp) /\ is_Some (counter !! t).
Proof.
  unfold Vocab_init; cbn [itos]. rewrite drop_app_length.
  intros [f Hf]%elem_of_append_words.
  rewrite !sorted_Permutation in Hf.
  apply elem_of_map_to_list in Hf. rewrite lookup_delete_specials in Hf.
  destruct (decide (t ∈ sp)); [done|]. split; [done|]. by exists f.
Qed.

Lemma itos_specials (counter : gmap string nat) (i : nat) :
  (i < 4)%nat -> itos (Vocab_init counter specials) !! i = specials !! i.
Proof. intros Hi. unfold Vocab_init; cbn [itos]. by rewrite lookup_app_l. Qed.

Lemma stoi_special (counter : gmap string nat) (t : string) :
  t ∈ specials ->
  stoi (Vocab_init counter specials) !! t = reverse_dict specials !! t.
Proof.
  intros Hin. unfold Vocab_init; cbn [stoi]. apply reverse_dict_app_notin.
  intros H. pose proof (Vocab_words counter specials t) as Hw.
  unfold Vocab_init in Hw; cbn [itos] in Hw.
  rewrite drop_app_length in Hw. destruct (Hw H) as [Hn _]. done.
Qed.

Lemma Vocab_getitem_specials (counter : gmap string nat) :
  let v := Vocab_init counter specials in
  Vocab_getitem v "<unk>" = 0%nat /\ Vocab_getitem v "<pad>" = 1%nat /\
  Vocab_getitem v "<bos>" = 2%nat /\ Vocab_getitem v "<eos>" = 3%nat.
Proof.
  intros v. unfold Vocab_getitem, v.
  rewrite !stoi_special by (unfold specials; set_solver).
  repeat split; vm_compute; reflexivity.
Qed.

Lemma stoi_UNK (counter : gmap string nat) :
  stoi (Vocab_init counter specials) !! UNK = Some 0%nat.
Proof. rewrite stoi_special by (unfold specials, UNK; set_solver). vm_compute. reflexivity. Qed.

(** The id of a token is the position of that token in [itos], or the id
    of [<unk>] when the token is not listed. *)
Lemma Vocab_getitem_spec (counter : gmap string nat) (t : string) :
  let v := Vocab_init counter specials in
  (t ∈ itos v /\ itos v !! Vocab_getitem v t = Some t) \/
  ((t ∉ itos v) /\ Vocab_getitem v t = 0%nat).
Proof.
  intros v. unfold Vocab_getitem.
  destruct (stoi v !! t) as [i|] eqn:E.
  - left. apply reverse_dict_lookup_Some in E. split; [|done].
    apply list_elem_of_lookup. by exists i.
  - right. split; [by apply reverse_dict_lookup_None in E|].
    unfold v. by rewrite stoi_UNK.
Qed.

Lemma Vocab_getitem_eos (counter : gmap string nat) (t : string) :
  Vocab_getitem (Vocab_init counter specials) t = 3%nat <-> t = "<eos>".
Proof.
  split.
  - intros H. destruct (Vocab_getitem_spec counter t) as [[_ Hl]|[_ H0]].
    + rewrite H, itos_specials in Hl by lia. by injection Hl.
    + rewrite H in H0. discriminate.
  - intros ->. apply Vocab_getitem_specials.
Qed.

(** ** Encoding one caption *)

Section Encoding.
Variable counter : gmap string nat.

Lemma torch_ones_nonneg (n : Z) :
  0 <= n -> torch_ones n = Ok (replicate (Z.to_nat n) true).
Proof. intros H. unfold torch_ones. by rewrite (proj2 (Z.ltb_ge n 0)). Qed.

Lemma mask_clear_from_ones (n k : nat) :
  (k <= n)%nat ->
  mask_clear_from (replicate n true) k = replicate k true ++ replicate (n - k) false.
Proof.
  intros H. unfold mask_clear_from.
  by rewrite take_replicate, length_replicate, Nat.min_l.
Qed.

(** Truncation: the [else] branch. *)
Lemma encode_tokens_truncate (u : Vocab) (M : Z) (words : list string) :
  1 <= M -> M < Z.of_nat (length words) + 2 ->
  encode_tokens u M words =
  Ok (take (Z.to_nat (M - 1)) (Vocab_getitem u "<bos>" :: map (Vocab_getitem u) words)
        ++ [Vocab_getitem u "<eos>"],
      replicate (Z.to_nat M) true).
Proof.
  intros H1 H2. unfold encode_tokens.
  rewrite torch_ones_nonneg by lia. cbn [rbind].
  rewrite (proj2 (Z.leb_gt _ _)).
  2:{ rewrite !length_app, length_map. simpl. lia. }
  unfold slice_to. rewrite (proj2 (Z.ltb_ge _ _)) by lia.
  change ([Vocab_getitem u "<bos>"] ++ map (Vocab_getitem u) words ++ [Vocab_getitem u "<eos>"])
    with ((Vocab_getitem u "<bos>" :: map (Vocab_getitem u) words) ++ [Vocab_getitem u "<eos>"]).
  rewrite take_app_le; [done|]. simpl. rewrite length_map. lia.
Qed.

(** Padding: the [if] branch. *)
Lemma encode_tokens_pad (u : Vocab) (M : Z) (words : list string) :
  Z.of_nat (length words) + 2 <= M ->
  encode_tokens u M words =
  Ok (Vocab_getitem u "<bos>" :: map (Vocab_getitem u) words
        ++ Vocab_getitem u "<eos>"
        :: replicate (Z.to_nat M - (length words + 2)) (Vocab_getitem u "<pad>"),
      replicate (length words + 2) true
        ++ replicate (Z.to_nat M - (length words + 2)) false).
Proof.
  intros H. unfold encode_tokens.
  rewrite torch_ones_nonneg by lia. cbn [rbind].
  assert (L : length ([Vocab_getitem u "<bos>"] ++ map (Vocab_getitem u) words
                        ++ [Vocab_getitem u "<eos>"]) = (length words + 2)%nat).
  { rewrite !length_app, length_map. simpl. lia. }
  rewrite L. rewrite (proj2 (Z.leb_le _ _)) by lia.
  rewrite mask_clear_from_ones by lia.
  unfold list_repeat.
  replace (Z.to_nat (M - Z.of_nat (length words + 2)))
    with (Z.to_nat M - (length words + 2))%nat by lia.
  f_equal. f_equal. simpl. by rewrite <- app_assoc.
Qed.

(** Both branches at once, for a length that has room for the two specials:
    the words kept are the first [max_seq_length - 2]. *)
Lemma encode_tokens_closed (u : Vocab) (M : Z) (words : list string) :
  2 <= M ->
  let kept := take (Z.to_nat (M - 2)) words in
  let padding := (Z.to_nat M - (length kept + 2))%nat in
  encode_tokens u M words =
  Ok (Vocab_getitem u "<bos>" :: map (Vocab_getitem u) kept
        ++ Vocab_getitem u "<eos>" :: replicate padding (Vocab_getitem u "<pad>"),
      replicate (length kept + 2) true ++ replicate padding false).
Proof.
  intros H kept padding.
  destruct (Z_le_gt_dec (Z.of_nat (length words) + 2) M) as [Hle|Hgt].
  - rewrite encode_tokens_pad by done.
    assert (K : kept = words) by (apply take_ge; lia).
    unfold padding. by rewrite K.
  - rewrite encode_tokens_truncate by lia.
    assert (K : length kept = Z.to_nat (M - 2)) by (apply length_take_le; lia).
    assert (P : padding = 0%nat) by (unfold padding; lia).
    rewrite P. replace (Z.to_nat (M - 1)) with (S (Z.to_nat (M - 2))) by lia.
    cbn [take replicate]. rewrite firstn_map, app_nil_r.
    replace (Z.to_nat M) with (length kept + 2)%nat by lia.
    done.
Qed.

Lemma outcome_encode_caption (self : LoadFlickerData) (u : Vocab) (caption : string) :
  outcome (encode_caption self u caption) =
  encode_tokens u (max_seq_length self) (tokenizer self caption).
Proof. unfold encode_caption, tokenize. simpl. by destruct encode_tokens. Qed.

Lemma count_id_words (ws : list string) :
  "<eos>" ∉ ws ->
  count_id (map (Vocab_getitem (Vocab_init counter specials)) ws) 3 = 0%nat.
Proof.
  intros Hn. apply count_occ_not_In. intros (w & Hw & Hin)%in_map_iff.
  apply Vocab_getitem_eos in Hw. apply list_elem_of_In in Hin. congruence.
Qed.

Lemma count_id_replicate (n x y : nat) : x <> y -> count_id (replicate n x) y = 0%nat.
Proof.
  intros Hne. apply count_occ_not_In. intros Hin%list_elem_of_In.
  apply elem_of_replicate_inv in Hin. congruence.
Qed.

Lemma monotone_mask_ones_zeros (a b : nat) :
  monotone_mask (replicate a true ++ replicate b false).
Proof.
  intros i j Hij Hj Hi. rewrite length_app, !length_replicate in Hj.
  destruct (decide (i < a)%nat) as [Hlt|Hge].
  - rewrite lookup_app_l, lookup_replicate_2 in Hi by (rewrite ?length_replicate; lia).
    discriminate.
  - rewrite lookup_app_r by (rewrite length_replicate; lia).
    apply lookup_replicate_2. rewrite length_replicate. lia.
Qed.

End Encoding.

(** ** Claims on the caption encoder *)

(** C1, as stated, fails: a caption that contains the word [<eos>] is
    encoded with two [<eos>] ids, here with [max_seq_length = 4] and the
    vocabulary built from that caption. *)
Lemma encode_caption_two_eos :
  let self := whitespace_loader 4 in
  let v := Vocab_init (Counter_update ∅ (str_split "dog <eos>")) specials in
  exists ids mask,
    outcome (encode_caption self v "dog <eos>") = Ok (ids, mask) /\
    count_id ids (Vocab_getitem v "<eos>") <> 1%nat.
Proof.
  eexists _, _. split; [vm_compute; reflexivity|]. vm_compute. discriminate.
Qed.

(** C1 (amended): for every caption and every [max_seq_length] with
    [2 <= max_seq_length < 2^63], the encoding succeeds; ids and mask have
    length [max_seq_length]; the ids begin with [<bos>]; the first mask
    value is [true]; the mask is monotone; [<eos>] occurs at least once,
    and exactly once when none of the [max_seq_length - 2] words kept is
    the word [<eos>]. *)
Theorem encode_caption_invariants (self : LoadFlickerData) (counter : gmap string nat)
    (caption : string) :
  2 <= max_seq_length self < 2 ^ 63 ->
  let v := Vocab_init counter specials in
  let kept := take (Z.to_nat (max_seq_length self - 2)) (tokenizer self caption) in
  exists ids mask,
    outcome (encode_caption self v caption) = Ok (ids, mask) /\
    Z.of_nat (length ids) = max_seq_length self /\
    Z.of_nat (length mask) = max_seq_length self /\
    head ids = Some (Vocab_getitem v "<bos>") /\
    head mask = Some true /\
    monotone_mask mask /\
    (1 <= count_id ids (Vocab_getitem v "<eos>"))%nat /\
    ("<eos>" ∉ kept -> count_id ids (Vocab_getitem v "<eos>") = 1%nat).
Proof.
  intros [HM _] v kept.
  rewrite outcome_encode_caption, encode_tokens_closed by done.
  fold kept. set (padding := (Z.to_nat (max_seq_length self) - (length kept + 2))%nat).
  assert (Hk : (length kept <= Z.to_nat (max_seq_length self - 2))%nat).
  { unfold kept. rewrite length_take. lia. }
  destruct (Vocab_getitem_specials counter) as (_ & Hpad & Hbos & Heos).
  fold v in Hpad, Hbos, Heos.
  eexists _, _. split; [reflexivity|]. repeat split.
  - cbn [length]. rewrite length_app, length_map. cbn [length].
    rewrite length_replicate. unfold padding. lia.
  - rewrite length_app, !length_replicate. unfold padding. lia.
  - rewrite Nat.add_comm. reflexivity.
  - apply monotone_mask_ones_zeros.
  - unfold count_id. rewrite Heos, Hbos. cbn [count_occ].
    destruct (Nat.eq_dec 2%nat 3%nat) as [?|_]; [lia|].
    rewrite count_occ_app. cbn [count_occ].
    destruct (Nat.eq_dec 3%nat 3%nat) as [_|?]; [lia|done].
  - intros Hn. unfold count_id. rewrite Heos, Hbos, Hpad. cbn [count_occ].
    destruct (Nat.eq_dec 2%nat 3%nat) as [?|_]; [lia|].
    rewrite count_occ_app. cbn [count_occ].
    destruct (Nat.eq_dec 3%nat 3%nat) as [_|?]; [|done].
    pose proof (count_id_words counter kept Hn) as Hw.
    pose proof (count_id_replicate padding 1%nat 3%nat) as Hp.
    unfold count_id in Hw, Hp. fold v in Hw. rewrite Hw, Hp; [reflexivity|lia].
Qed.

Lemma encode_caption_invariants_witness :
  let self := whitespace_loader 6 in
  let v := Vocab_init (Counter_update ∅ (str_split "a dog runs")) specials in
  2 <= max_seq_length self < 2 ^ 63 /\
  exists ids mask,
    outcome (encode_caption self v "a dog runs") = Ok (ids, mask) /\
    count_id ids (Vocab_getitem v "<eos>") = 1%nat.
Proof.
  intros self v. split; [split; [discriminate|reflexivity]|].
  destruct (encode_caption_invariants self
              (Counter_update ∅ (str_split "a dog runs")) "a dog runs")
    as (ids & mask & Ho & _ & _ & _ & _ & _ & _ & Hone).
  - split; [discriminate|reflexivity].
  - exists ids, mask. split; [exact Ho|]. apply Hone.
    vm_compute. intros H. repeat (apply elem_of_cons in H as [H|H]; [discriminate|]).
    by apply elem_of_nil in H.
Defined.

(** C3: when the tokenized caption with its two specials is longer than
    [max_seq_length], the ids are the first [max_seq_length - 1] ids of the
    [<bos>]-prefixed sequence followed by [<eos>], which therefore stands at
    position [max_seq_length - 1], and the mask is [true] at each of its
    [max_seq_length] positions. *)
Theorem encode_caption_truncates (self : LoadFlickerData) (v : Vocab) (caption : string) :
  let M := max_seq_length self in
  let words := tokenizer self caption in
  1 <= M -> M < Z.of_nat (length words) + 2 ->
  exists ids mask,
    outcome (encode_caption self v caption) = Ok (ids, mask) /\
    ids = take (Z.to_nat (M - 1)) (Vocab_getitem v "<bos>" :: map (Vocab_getitem v) words)
            ++ [Vocab_getitem v "<eos>"] /\
    Z.of_nat (length ids) = M /\
    ids !! Z.to_nat (M - 1) = Some (Vocab_getitem v "<eos>") /\
    Z.of_nat (length mask) = M /\
    (forall i, (i < length mask)%nat -> mask !! i = Some true).
Proof.
  intros M words H1 H2.
  rewrite outcome_encode_caption. fold M words.
  rewrite encode_tokens_truncate by done.
  eexists _, _. split; [reflexivity|]. split; [reflexivity|].
  assert (L : length (take (Z.to_nat (M - 1))
                (Vocab_getitem v "<bos>" :: map (Vocab_getitem v) words))
              = Z.to_nat (M - 1)).
  { apply length_take_le. cbn [length]. rewrite length_map. lia. }
  repeat split.
  - rewrite length_app, L. cbn [length]. lia.
  - rewrite lookup_app_r by lia. rewrite L, Nat.sub_diag. reflexivity.
  - rewrite length_replicate. lia.
  - intros i Hi. rewrite length_replicate in Hi. by apply lookup_replicate_2.
Qed.

Lemma encode_caption_truncates_witness :
  let self := whitespace_loader 5 in
  let v := Vocab_init (Counter_update ∅ (str_split "a b c d e f")) specials in
  exists ids mask,
    outcome (encode_caption self v "a b c d e f") = Ok (ids, mask) /\
    ids !! 4%nat = Some (Vocab_getitem v "<eos>") /\
    mask = [true; true; true; true; true].
Proof.
  intros self v.
  destruct (encode_caption_truncates self v "a b c d e f")
    as (ids & mask & Ho & Hids & _ & Heos & Hlen & Hmask).
  - vm_compute. discriminate.
  - vm_compute. reflexivity.
  - exists ids, mask. split; [exact Ho|]. split; [exact Heos|].
    rewrite outcome_encode_caption in Ho. vm_compute in Ho. by injection Ho as _ <-.
Defined.

(** ** Claims on the vocabulary *)

Lemma append_words_all (wf : list (string * nat)) (t : string) (f : nat) :
  Forall (fun p => (1 <= p.2)%nat) wf -> (t, f) ∈ wf -> t ∈ append_words 1 wf.
Proof.
  induction 1 as [|[w g] wf Hg _ IH]; [intros H; by apply elem_of_nil in H|].
  cbn [append_words]. simpl in Hg.
  rewrite (proj2 (Nat.ltb_ge g 1)) by lia.
  intros [[= -> ->]|H]%elem_of_cons; [by left|right; auto].
Qed.

(** Every counted token is listed. *)
Lemma Vocab_lists_counter (counter : gmap string nat) (t : string) (f : nat) :
  (forall w n, counter !! w = Some n -> (1 <= n)%nat) ->
  counter !! t = Some f -> t ∈ itos (Vocab_init counter specials).
Proof.
  intros Hpos Ht. destruct (decide (t ∈ specials)) as [Hs|Hs].
  { unfold Vocab_init; cbn [itos]. apply elem_of_app. by left. }
  unfold Vocab_init; cbn [itos]. apply elem_of_app. right.
  apply append_words_all with f.
  - apply Forall_forall. intros [w n] Hin. rewrite !sorted_Permutation in Hin.
    apply elem_of_map_to_list in Hin. rewrite lookup_delete_specials in Hin.
    case_decide; [done|]. simpl. eauto.
  - rewrite !sorted_Permutation. apply elem_of_map_to_list.
    rewrite lookup_delete_specials. by rewrite decide_False.
Qed.

Lemma Counter_update_positive (counter : gmap string nat) (tokens : list string) :
  (forall w n, counter !! w = Some n -> (1 <= n)%nat) ->
  forall w n, Counter_update counter tokens !! w = Some n -> (1 <= n)%nat.
Proof.
  revert counter. induction tokens as [|t tokens IH]; intros counter Hpos; [done|].
  cbn [Counter_update foldl]. apply IH. intros w n.
  destruct (decide (t = w)) as [->|Hne].
  - rewrite lookup_insert_eq. intros [= <-]. lia.
  - rewrite lookup_insert_ne by done. apply Hpos.
Qed.

Lemma Vocab_listed (counter : gmap string nat) (t : string) :
  t ∈ itos (Vocab_init counter specials) -> t ∈ specials \/ is_Some (counter !! t).
Proof.
  intros Hin. destruct (decide (t ∈ specials)) as [Hs|Hs]; [by left|right].
  apply (Vocab_words counter specials t).
  unfold Vocab_init in *; cbn [itos] in *. rewrite drop_app_length.
  apply elem_of_app in Hin as [?|?]; done.
Qed.

(** C5, as stated, fails: [<pad>] does not occur in the corpus, and its
    lookup returns 1, the id of [<pad>], not 0, the id of [<unk>]. *)
Lemma special_token_is_not_unk :
  let counter := Counter_update ∅ (str_split "a dog runs") in
  let v := Vocab_init counter specials in
  counter !! "<pad>" = None /\
  Vocab_getitem v "<pad>" = 1%nat /\ Vocab_getitem v "<unk>" = 0%nat.
Proof. repeat split; vm_compute; reflexivity. Qed.

(** C5 (amended): a token listed in the vocabulary is mapped to an id that
    maps back to it, in [itos] and through the id-to-token lookup; a token
    that is neither counted in the corpus nor one of the four specials is
    not listed, and its lookup returns the id of [<unk>], which is 0; each
    special returns its own reserved id, 0 to 3, whether or not the corpus
    contains it; the id-to-token lookup fails with an out-of-range error
    for a negative id and for an id from the vocabulary size on. *)
Theorem Vocab_lookup_roundtrip (counter : gmap string nat) (t : string) (i : Z) :
  let v := Vocab_init counter specials in
  (t ∈ itos v ->
     itos v !! Vocab_getitem v t = Some t /\
     id_to_token v (Z.of_nat (Vocab_getitem v t)) = Ok t) /\
  (counter !! t = None -> t ∉ specials ->
     (t ∉ itos v) /\ Vocab_getitem v t = Vocab_getitem v "<unk>" /\
     Vocab_getitem v "<unk>" = 0%nat) /\
  (Vocab_getitem v "<unk>" = 0%nat /\ Vocab_getitem v "<pad>" = 1%nat /\
   Vocab_getitem v "<bos>" = 2%nat /\ Vocab_getitem v "<eos>" = 3%nat) /\
  (i < 0 \/ Z.of_nat (Vocab_len v) <= i -> id_to_token v i = Raise IndexError).
Proof.
  intros v. split; [|split; [|split]].
  - intros Hin. destruct (Vocab_getitem_spec counter t) as [[_ Hl]|[Hn _]]; [|done].
    fold v in Hl. split; [exact Hl|]. unfold id_to_token.
    pose proof (lookup_lt_Some _ _ _ Hl) as Hlt.
    rewrite (proj2 (Z.ltb_ge _ _)), (proj2 (Z.leb_gt _ _)) by lia.
    cbn [orb]. by rewrite Nat2Z.id, Hl.
  - intros Hc Hs. repeat split.
    + intros Hin. apply Vocab_listed in Hin as [?|[n Hn]]; [done|congruence].
    + destruct (Vocab_getitem_spec counter t) as [[Hin _]|[_ Hz]].
      * apply Vocab_listed in Hin as [?|[n Hn]]; [done|congruence].
      * fold v in Hz. rewrite Hz. symmetry. apply Vocab_getitem_specials.
    + apply Vocab_getitem_specials.
  - apply Vocab_getitem_specials.
  - intros Hi. unfold id_to_token, Vocab_len in *.
    destruct (i <? 0) eqn:E1; [done|].
    destruct (Z.of_nat (length (itos v)) <=? i) eqn:E2; [done|]. lia.
Qed.

Lemma Vocab_lookup_roundtrip_witness :
  let counter := Counter_update ∅ (str_split "a dog runs") in
  let v := Vocab_init counter specials in
  ("dog" ∈ itos v) /\ counter !! "cat" = None /\ ("cat" ∉ specials) /\
  counter !! "<pad>" = None /\
  itos v !! Vocab_getitem v "dog" = Some "dog" /\
  id_to_token v (Z.of_nat (Vocab_getitem v "dog")) = Ok "dog" /\
  Vocab_getitem v "cat" = 0%nat /\
  Vocab_getitem v "<pad>" = 1%nat /\
  id_to_token v 7 = Raise IndexError.
Proof.
  intros counter v.
  assert (Hdog : "dog" ∈ itos v) by (vm_compute; do 5 right; left).
  assert (Hcat : counter !! "cat" = None) by (vm_compute; reflexivity).
  assert (Hns : "cat" ∉ specials).
  { vm_compute. intros H. repeat (apply elem_of_cons in H as [H|H]; [discriminate|]).
    by apply elem_of_nil in H. }
  destruct (Vocab_lookup_roundtrip counter "dog" 7) as (Hrt & _ & Hsp & Hout).
  destruct (Vocab_lookup_roundtrip counter "cat" 7) as (_ & Habs & _).
  fold v in Hrt, Hsp, Hout, Habs.
  destruct (Hrt Hdog) as [Hl Hid]. destruct (Habs Hcat Hns) as (_ & Hu & H0).
  split; [exact Hdog|]. split; [exact Hcat|]. split; [exact Hns|].
  split; [vm_compute; reflexivity|]. split; [exact Hl|]. split; [exact Hid|].
  split; [congruence|]. split; [apply Hsp|].
  apply Hout. right. vm_compute. discriminate.
Defined.

(** C6: the vocabulary built from "a dog runs" and "a cat runs" with a
    whitespace tokenizer has 8 ids, the 4 specials and [a], [dog], [runs],
    [cat]; with [max_seq_length = 6], "a dog runs" is encoded as the ids of
    [<bos>, a, dog, runs, <eos>, <pad>] with mask [T, T, T, T, T, F]. *)
Theorem scenario_two_captions :
  let self := whitespace_loader 6 in
  let image_data := [("1", CaptionList ["a dog runs"]); ("2", CaptionList ["a cat runs"])] in
  exists v tokens_arrays attention_masks,
    outcome (preprocess_caption self image_data) = Ok (v, tokens_arrays, attention_masks) /\
    Vocab_len v = 8%nat /\
    itos v ≡ₚ specials ++ ["a"; "dog"; "runs"; "cat"] /\
    NoDup (itos v) /\
    tokens_arrays !! 0%nat =
      Some (map (Vocab_getitem v) ["<bos>"; "a"; "dog"; "runs"; "<eos>"; "<pad>"]) /\
    tokens_arrays !! 0%nat = Some [2; 4; 7; 5; 3; 1]%nat /\
    attention_masks !! 0%nat = Some [true; true; true; true; true; false].
Proof.
  eexists _, _, _. split; [vm_compute; reflexivity|].
  split; [reflexivity|].
  split; [|split; [|split; [|split]; vm_compute; reflexivity]].
  - cbn [itos]. unfold specials. cbn [app]. do 5 apply Permutation_skip.
    apply (Permutation_app_comm ["runs"; "cat"] ["dog"]).
  - cbn [itos]. apply NoDup_ListNoDup. repeat constructor; simpl; intuition discriminate.
Qed.

(** ** Loading the annotation files *)

(** One step of a successful run: name the result of the first command. *)
Ltac outcome_step :=
  rewrite outcome_bind;
  match goal with
  | |- context [match outcome ?m with Ok _ => _ | Raise _ => _ end] =>
      let E := fresh "E" in destruct (outcome m) eqn:E; [|discriminate]
  end.

Lemma for_each_invariant {A S} (P : S -> Prop) (l : list A) (body : S -> A -> M S) :
  (forall s a s', P s -> outcome (body s a) = Ok s' -> P s') ->
  forall s s', P s -> outcome (for_each l body s) = Ok s' -> P s'.
Proof.
  intros Hbody. induction l as [|a l IH]; intros s s' Hs; cbn [for_each].
  - intros [= <-]. exact Hs.
  - rewrite outcome_bind. destruct (outcome (body s a)) as [s1|e] eqn:E; [|done].
    apply IH. by eapply Hbody.
Qed.

Lemma for_each_trace {A S} (Q : event -> Prop) (l : list A) (body : S -> A -> M S) :
  (forall s a, Forall Q (trace (body s a))) ->
  forall s, Forall Q (trace (for_each l body s)).
Proof.
  intros Hbody. induction l as [|a l IH]; intros s; cbn [for_each].
  - constructor.
  - rewrite trace_bind. apply Forall_app. split; [apply Hbody|].
    destruct (outcome (body s a)); [apply IH|constructor].
Qed.

Lemma to_records_stored (p : string) (d : list (string * list string))
    (records : list (string * value)) :
  outcome (to_records p d) = Ok records -> stored_shape records.
Proof.
  unfold to_records. apply for_each_invariant; [|constructor].
  intros rows [image_id captions] rows' Hrows.
  rewrite outcome_bind. destruct captions as [|c captions]; [done|].
  cbn. intros [= <-]. apply Forall_app. split; [exact Hrows|].
  constructor; [|constructor]. by eexists _, _.
Qed.

(** What construction leaves in the object. *)
Lemma init_fields (fs : string -> option (list string)) (p : string) (M : Z)
    (tok : string -> list string) (self : LoadFlickerData) :
  outcome (init fs p M tok) = Ok self ->
  tokenizer self = tok /\ max_seq_length self = M /\ vocab self = None /\
  stored_shape (data self).
Proof.
  unfold init, load_data. cbn [path tokenizer vocab max_seq_length].
  do 5 outcome_step.
  cbn. intros [= <-]. cbn. repeat split. by eapply to_records_stored.
Qed.
(** ** Claims on the dataset object *)

Lemma dog_loader_loaded :
  outcome (init dog_files "/Flicker8k_Dataset" 6 str_split) = Ok dog_loader.
Proof. vm_compute. reflexivity. Qed.

Lemma tokenize_ext (s1 s2 : LoadFlickerData) (c : string) :
  tokenizer s1 = tokenizer s2 -> tokenize s1 c = tokenize s2 c.
Proof. intros E. unfold tokenize. by rewrite E. Qed.

Lemma encode_caption_ext (s1 s2 : LoadFlickerData) (v : Vocab) (c : string) :
  tokenizer s1 = tokenizer s2 -> max_seq_length s1 = max_seq_length s2 ->
  encode_caption s1 v c = encode_caption s2 v c.
Proof. intros E1 E2. unfold encode_caption. by rewrite (tokenize_ext s1 s2), E2. Qed.

Lemma for_each_same {A S} (l : list A) (f g : S -> A -> M S) :
  (forall s a, f s a = g s a) -> forall s, for_each l f s = for_each l g s.
Proof.
  intros E. apply for_each_ext. induction l; constructor; auto.
Qed.

(** The result depends on the mapping only through what iterating each
    value yields. *)
Lemma preprocess_caption_ext (s1 s2 : LoadFlickerData) (d1 d2 : list (string * value)) :
  tokenizer s1 = tokenizer s2 -> max_seq_length s1 = max_seq_length s2 ->
  Forall2 (fun a b => iterate a.2 = iterate b.2) d1 d2 ->
  preprocess_caption s1 d1 = preprocess_caption s2 d2.
Proof.
  intros E1 E2 H. unfold preprocess_caption.
  rewrite (for_each_ext d1 d2 _
    (fun counter '(image_id, captions) =>
       for_each (iterate captions) (count_words s2) counter)).
  2:{ eapply Forall2_impl; [exact H|]. intros [k1 v1] [k2 v2] Hi s. simpl in Hi.
      rewrite Hi. apply for_each_same. intros c w. unfold count_words.
      by rewrite (tokenize_ext s1 s2). }
  apply bind_ext; intros counter. apply bind_ext; intros vocab.
  rewrite (for_each_ext d1 d2 _
    (fun arrays '(image_id, captions) =>
      for_each (iterate captions) (fun '(tokens_arrays, attention_masks) caption =>
        encoded <- encode_caption s2 vocab caption ;;
        let '(tokens, mask) := encoded in
        ret (tokens_arrays ++ [tokens], attention_masks ++ [mask])) arrays)).
  2:{ eapply Forall2_impl; [exact H|]. intros [k1 v1] [k2 v2] Hi s. simpl in Hi.
      rewrite Hi. apply for_each_same. intros [ta am] c.
      by rewrite (encode_caption_ext s1 s2). }
  reflexivity.
Qed.

Lemma stored_shape_iterate (d : list (string * value)) :
  stored_shape d -> Forall (fun kv => iterate kv.2 = ["captions"; "image_path"]) d.
Proof.
  intros H. eapply Forall_impl; [exact H|]. intros kv (c & p & ->). reflexivity.
Qed.

Lemma stored_shape_Forall2 (d1 d2 : list (string * value)) :
  stored_shape d1 -> stored_shape d2 -> length d1 = length d2 ->
  Forall2 (fun a b => iterate a.2 = iterate b.2) d1 d2.
Proof.
  intros H1%stored_shape_iterate H2%stored_shape_iterate.
  revert d2 H2. induction H1 as [|a d1 Ha _ IH]; intros [|b d2] H2 L;
    try discriminate L; constructor.
  - apply Forall_cons in H2 as [Hb _]. congruence.
  - apply Forall_cons in H2 as [_ H2]. apply IH; [done|]. by injection L.
Qed.

(** C9: on the mapping that [load_data] stores, the vocabulary and the
    token arrays (and the masks) do not depend on the caption text: two
    loaded corpora with the same number of images, tokenizer and
    [max_seq_length] give the same result, because iterating a record
    yields its two keys. *)
Theorem preprocess_caption_ignores_captions
    (fs1 fs2 : string -> option (list string)) (p1 p2 : string) (M : Z)
    (tok : string -> list string) (s1 s2 : LoadFlickerData) :
  outcome (init fs1 p1 M tok) = Ok s1 ->
  outcome (init fs2 p2 M tok) = Ok s2 ->
  length (data s1) = length (data s2) ->
  preprocess_caption s1 (data s1) = preprocess_caption s2 (data s2) /\
  Forall (fun kv => iterate kv.2 = ["captions"; "image_path"]) (data s1).
Proof.
  intros (T1 & M1 & _ & S1)%init_fields (T2 & M2 & _ & S2)%init_fields L.
  split; [|by apply stored_shape_iterate].
  apply preprocess_caption_ext; [congruence|congruence|].
  by apply stored_shape_Forall2.
Qed.

Lemma preprocess_caption_ignores_captions_witness :
  outcome (init dog_files "/Flicker8k_Dataset" 6 str_split) = Ok dog_loader /\
  outcome (init bird_files "/Flicker8k_Dataset" 6 str_split) = Ok bird_loader /\
  (data dog_loader).*2 <> (data bird_loader).*2 /\
  preprocess_caption dog_loader (data dog_loader)
  = preprocess_caption bird_loader (data bird_loader).
Proof.
  split; [vm_compute; reflexivity|].
  split; [vm_compute; reflexivity|]. split; [discriminate|].
  apply (preprocess_caption_ignores_captions dog_files bird_files
           "/Flicker8k_Dataset" "/Flicker8k_Dataset" 6 str_split).
  - vm_compute; reflexivity.
  - vm_compute; reflexivity.
  - reflexivity.
Defined.

Lemma outcome_lift {A} (r : result A) : outcome (lift r) = r.
Proof. reflexivity. Qed.




(** On [dog_loader]: an image id fails on the list, an integer on the dict. *)
Example getitem_dog_loader :
  outcome (getitem unit (fun _ => Ok tt) dog_loader (PStr "1")) = Raise TypeError /\
  outcome (getitem unit (fun _ => Ok tt) dog_loader (PInt 0)) = Raise KeyError.
Proof. split; vm_compute; reflexivity. Qed.

(** ** What a retrieval recomputes *)

Lemma for_each_total {A S} (l : list A) (body : S -> A -> M S) :
  (forall s a, exists s', outcome (body s a) = Ok s') ->
  forall s, exists s', outcome (for_each l body s) = Ok s'.
Proof.
  intros Hbody. induction l as [|a l IH]; intros s; cbn [for_each].
  - by exists s.
  - rewrite outcome_bind. destruct (Hbody s a) as [s1 ->]. apply IH.
Qed.

(** An event of the body at an element of the list is an event of the
    loop, when the body never raises. *)
Lemma for_each_event {A S} (l : list A) (body : S -> A -> M S) (a : A) (e : event) :
  (forall s a, exists s', outcome (body s a) = Ok s') ->
  a ∈ l -> (forall s, e ∈ trace (body s a)) ->
  forall s, e ∈ trace (for_each l body s).
Proof.
  intros Htot Hin He. induction l as [|b l IH]; intros s.
  - by apply elem_of_nil in Hin.
  - cbn [for_each]. rewrite trace_bind, elem_of_app.
    apply elem_of_cons in Hin as [<-|Hin]; [left; apply He|right].
    destruct (Htot s b) as [s1 ->]. by apply IH.
Qed.

Lemma count_occ_Forall_ne (t : list event) (e : event) :
  Forall (fun x => x <> e) t -> count_occ event_eq_dec t e = 0%nat.
Proof.
  intros H. apply count_occ_not_In. intros Hin%list_elem_of_In.
  rewrite Forall_forall in H. by apply (H e).
Qed.

Section Counting.
Variable self : LoadFlickerData.

Lemma count_words_total (counter : gmap string nat) (caption : string) :
  exists counter', outcome (count_words self counter caption) = Ok counter'.
Proof. by eexists. Qed.

Lemma count_words_trace (counter : gmap string nat) (caption : string) :
  trace (count_words self counter caption) = [Tokenize caption].
Proof. reflexivity. Qed.

Lemma encode_caption_trace (v : Vocab) (caption : string) :
  trace (encode_caption self v caption) = [Tokenize caption].
Proof.
  unfold encode_caption. rewrite trace_bind. reflexivity.
Qed.

(** The events of [__preprocess_caption__]: the captions of the whole
    mapping are tokenized, the vocabulary is built, and captions are
    tokenized again. *)
Lemma preprocess_caption_trace (d : list (string * value)) :
  exists t1 t2,
    trace (preprocess_caption self d) = t1 ++ BuildVocab :: t2 /\
    Forall is_tokenize t1 /\ Forall is_tokenize t2 /\
    (forall k v c, (k, v) ∈ d -> c ∈ iterate v -> Tokenize c ∈ t1).
Proof.
  unfold preprocess_caption.
  set (first_loop := for_each d _ ∅).
  assert (Htot : forall (s : gmap string nat) (a : string * value),
            exists s', outcome ((fun counter '(_, captions) =>
              for_each (iterate captions) (count_words self) counter) s a) = Ok s').
  { intros s [k v]. apply for_each_total. intros; apply count_words_total. }
  destruct (for_each_total d _ Htot ∅) as [counter Hc]. fold first_loop in Hc.
  rewrite trace_bind, Hc. unfold build_vocab at 1.
  rewrite trace_bind. cbn [emit bind trace outcome fst snd ret app].
  rewrite trace_bind.
  set (second_loop := for_each d _ ([], [])).
  eexists (trace first_loop), _. split; [reflexivity|].
  split; [|split].
  - apply for_each_trace. intros s [k v]. apply for_each_trace.
    intros s' c. rewrite count_words_trace. repeat constructor. by exists c.
  - apply Forall_app. split.
    + apply for_each_trace. intros s [k v]. apply for_each_trace.
      intros [ta am] c. rewrite trace_bind, encode_caption_trace.
      apply Forall_app. split; [repeat constructor; by exists c|].
      match goal with
      | |- context [outcome ?m] => destruct (outcome m) as [[tokens mask]|]
      end; constructor.
    + destruct (outcome second_loop) as [[ta am]|]; constructor.
  - intros k v c Hkv Hc'. apply (for_each_event d _ (k, v)); [exact Htot|exact Hkv|].
    intros s. apply (for_each_event (iterate v) _ c);
      [intros; apply count_words_total|exact Hc'|].
    intros s'. rewrite count_words_trace. by left.
Qed.

End Counting.

(** After [__preprocess_caption__], a retrieval only reads the image. *)
Lemma getitem_trace (image : Type) (preprocess_image : string -> result image)
    (self : LoadFlickerData) (item : obj) :
  exists t3,
    trace (getitem image preprocess_image self item) =
      trace (preprocess_caption self (data self)) ++ t3 /\
    Forall is_read_image t3.
Proof.
  unfold getitem. rewrite trace_bind. eexists. split; [reflexivity|].
  destruct (outcome (preprocess_caption self (data self))) as [[[v ta] am]|e];
    [|constructor].
  rewrite trace_bind, outcome_lift. cbn [lift trace fst app].
  destruct (dict_getitem (data self) item) as [record|]; [|constructor].
  rewrite trace_bind, outcome_lift. cbn [lift trace fst app].
  destruct (value_getitem record "image_path") as [image_path|]; [|constructor].
  rewrite trace_bind. cbn [emit trace outcome fst snd app].
  constructor; [by eexists|].
  rewrite trace_bind, outcome_lift. cbn [lift trace fst app].
  destruct (preprocess_image image_path) as [img|]; [|constructor].
  rewrite trace_bind, outcome_lift. cbn [lift trace fst app].
  destruct (list_getitem ta item); [|constructor].
  rewrite trace_bind, outcome_lift. cbn [lift trace fst app].
  rewrite trace_bind, outcome_lift. cbn [lift trace fst app].
  destruct (value_getitem _ "captions"); [|constructor].
  rewrite trace_bind, outcome_lift. cbn [lift trace fst app].
  destruct (list_getitem am item); constructor.
Qed.

Lemma init_trace (fs : string -> option (list string)) (p : string) (M : Z)
    (tok : string -> list string) :
  Forall (fun e => exists q, e = OpenFile q) (trace (init fs p M tok)).
Proof.
  unfold init, load_data. cbn [path tokenizer vocab max_seq_length].
  assert (Hopen : forall q, Forall (fun e => exists q, e = OpenFile q)
                              (trace (open_lines fs q))).
  { intros q. unfold open_lines. rewrite trace_bind. cbn.
    constructor; [by eexists|]. destruct (fs q); constructor. }
  assert (Hread : forall l d, Forall (fun e => exists q, e = OpenFile q)
                              (trace (for_each l read_line d))).
  { intros l d. apply for_each_trace. intros s line. unfold read_line.
    destruct (str_split_on tab (str_strip line)) as [|? [|? [|? ?]]]; try constructor.
    destruct (str_split_on "." _); constructor. }
  assert (Hrec : forall d, Forall (fun e => exists q, e = OpenFile q)
                             (trace (to_records p d))).
  { intros d. apply for_each_trace. intros s [k [|c cs]]; constructor. }
  repeat (rewrite trace_bind; apply Forall_app; split;
          [auto|destruct (outcome _); [|constructor]]).
  constructor.
Qed.

(** C8, as stated, fails: the retrieval of a sample of [dog_loader] builds
    a vocabulary and tokenizes. *)
Lemma getitem_is_not_a_pure_lookup :
  ~ pure_lookup (trace (getitem unit (fun _ => Ok tt) dog_loader (PStr "1"))).
Proof.
  intros [H _]. apply H. vm_compute. do 4 right. left.
Qed.

(** C8 (amended): construction only opens the annotation files; it builds
    no vocabulary, tokenizes nothing and leaves [self.vocab] at [None].
    Every retrieval runs [__preprocess_caption__] on the whole stored
    mapping: it builds the vocabulary once and tokenizes every string that
    iterating a record yields. *)
Theorem getitem_recomputes (image : Type) (preprocess_image : string -> result image)
    (self : LoadFlickerData) (item : obj)
    (fs : string -> option (list string)) (p : string) (M : Z)
    (tok : string -> list string) :
  let t := trace (getitem image preprocess_image self item) in
  count_occ event_eq_dec t BuildVocab = 1%nat /\
  (forall k v c, (k, v) ∈ data self -> c ∈ iterate v -> Tokenize c ∈ t) /\
  pure_lookup (trace (init fs p M tok)) /\
  (forall s, outcome (init fs p M tok) = Ok s -> vocab s = None).
Proof.
  intros t. unfold t.
  destruct (getitem_trace image preprocess_image self item) as (t3 & -> & H3).
  destruct (preprocess_caption_trace self (data self)) as (t1 & t2 & -> & H1 & H2 & Hall).
  split; [|split; [|split]].
  - rewrite !count_occ_app. cbn [count_occ].
    destruct (event_eq_dec BuildVocab BuildVocab) as [_|?]; [|done].
    rewrite !count_occ_Forall_ne; [reflexivity| | |].
    + eapply Forall_impl; [exact H3|]. intros e [q ->]. discriminate.
    + eapply Forall_impl; [exact H2|]. intros e [q ->]. discriminate.
    + eapply Forall_impl; [exact H1|]. intros e [q ->]. discriminate.
  - intros k v c Hkv Hc. rewrite <- app_assoc. apply elem_of_app. left. eauto.
  - pose proof (init_trace fs p M tok) as Hi. rewrite Forall_forall in Hi.
    split; [|intros c]; intros [q Hq]%Hi; discriminate.
  - intros s Hs. by apply init_fields in Hs as (_ & _ & Hv & _).
Qed.

Lemma getitem_recomputes_witness :
  Tokenize "image_path"
    ∈ trace (getitem unit (fun _ => Ok tt) dog_loader (PInt 0)) /\
  vocab dog_loader = None.
Proof.
  destruct (getitem_recomputes unit (fun _ => Ok tt) dog_loader (PInt 0)
              dog_files "/Flicker8k_Dataset" 6 str_split) as (_ & Htok & _ & Hv).
  split.
  - apply (Htok "1" (RecordDict [("captions", "A dog runs");
                       ("image_path", "/Flicker8k_Dataset/Images/1.jpg")])).
    + left.
    + vm_compute. right. left.
  - apply Hv. vm_compute. reflexivity.
Defined.

(** ** Claims on the decoder *)

Section DecoderProperties.
Context {tensor float : Type}.
Variable tensor_plus : tensor -> tensor -> result tensor.
Variable new_MultiheadAttention : Z -> Z -> float -> result (attention tensor).
Variable new_LayerNorm : Z -> result (tensor -> result tensor).
Variable new_PositionwiseFF : Z -> Z -> float -> result (tensor -> result tensor).
Variable new_Dropout : float -> result (tensor -> tensor).
Variable new_Linear : Z -> Z -> result (tensor -> result tensor).

(** A decoder layer returns a tuple of two values. *)
Lemma TransformerDecoderLayer_forward_pair (layer : TransformerDecoderLayer tensor)
    (tgt memory : tensor) (tgt_mask memory_mask : option tensor) (t : list tensor) :
  TransformerDecoderLayer_forward tensor_plus layer tgt memory tgt_mask memory_mask = Ok t ->
  length t = 2%nat.
Proof.
  unfold TransformerDecoderLayer_forward, rbind.
  repeat match goal with
         | |- context [match ?r with Ok _ => _ | Raise _ => _ end] =>
             destruct r as [?|?]; [|discriminate]
         | |- context [let '(_, _) := ?r in _] => destruct r as [? ?]
         end.
  by intros [= <-].
Qed.

Lemma unpack3_pair (t : list tensor) : length t = 2%nat -> unpack3 t = Raise ValueError.
Proof. destruct t as [|a [|b [|c t]]]; simpl; intros; done. Qed.

Lemma range_nonpositive (n : Z) : n < 1 -> range n = [].
Proof. intros H. unfold range. by replace (Z.to_nat n) with 0%nat by lia. Qed.

(** C2 (the code at num_layers >= 1): with at least one layer,
    [Decoder.forward] returns no logits. The first layer returns two values,
    their assignment to three names raises [ValueError], and neither a
    second layer nor the output projection is reached. *)
Theorem Decoder_forward_raises (self : Decoder tensor)
    (tgt memory : tensor) (tgt_mask memory_mask : option tensor) :
  layers self <> [] ->
  raises (Decoder_forward tensor_plus self tgt memory tgt_mask memory_mask) /\
  forall layer rest t,
    layers self = layer :: rest ->
    TransformerDecoderLayer_forward tensor_plus layer tgt memory tgt_mask memory_mask = Ok t ->
    Decoder_forward tensor_plus self tgt memory tgt_mask memory_mask = Raise ValueError.
Proof.
  intros Hne. unfold Decoder_forward, raises.
  destruct (layers self) as [|layer rest]; [done|]. cbn [Decoder_layers].
  destruct (TransformerDecoderLayer_forward tensor_plus layer tgt memory tgt_mask memory_mask)
    as [t|e] eqn:E; cbn [rbind].
  - rewrite (unpack3_pair t) by (by eapply TransformerDecoderLayer_forward_pair).
    cbn [rbind]. split; [by eexists|]. by intros ? ? ? _ _.
  - split; [by eexists|]. intros ? ? ? [= <- <-] E'. congruence.
Qed.

(** C7 (amended): for [num_layers < 1] the constructor builds no layer and
    checks nothing: when the [Dropout] and [Linear] constructors succeed it
    returns a decoder with an empty list of layers, whose forward pass is
    the output projection alone. *)
Theorem Decoder_init_without_layers
    (vocab_size d_model n_head d_ffn num_layers max_seq_length : Z) (dropout : float)
    (drop : tensor -> tensor) (projection : tensor -> result tensor) :
  num_layers < 1 ->
  new_Dropout dropout = Ok drop ->
  new_Linear d_model vocab_size = Ok projection ->
  Decoder_init new_MultiheadAttention new_LayerNorm new_PositionwiseFF new_Dropout
    new_Linear vocab_size d_model n_head d_ffn num_layers max_seq_length dropout
  = Ok (mkDecoder [] drop projection) /\
  forall tgt memory tgt_mask memory_mask,
    Decoder_forward tensor_plus (mkDecoder [] drop projection) tgt memory tgt_mask memory_mask
    = projection tgt.
Proof.
  intros Hn Hd Hl. unfold Decoder_init.
  rewrite range_nonpositive by done. cbn [new_layers rbind]. rewrite Hd, Hl.
  split; reflexivity.
Qed.

End DecoderProperties.

Lemma Decoder_forward_raises_witness :
  exists d, scalar_Decoder 10 512 8 2048 1 20 = Ok d /\
            Decoder_forward scalar_plus d 5 7 None None = Raise ValueError.
Proof.
  eexists. split; [reflexivity|].
  eapply (Decoder_forward_raises scalar_plus).
  - cbn. discriminate.
  - reflexivity.
  - reflexivity.
Defined.

(** C7, as stated, fails: with [num_layers = 0] the constructor returns a
    decoder, and its forward pass returns the projected target. *)
Lemma Decoder_init_zero_layers :
  ~ raises (scalar_Decoder 10 512 8 2048 0 20) /\
  exists d, scalar_Decoder 10 512 8 2048 0 20 = Ok d /\
            Decoder_forward scalar_plus d 5 7 None None = Ok 5.
Proof.
  split; [intros [e H]; discriminate H|]. eexists. split; reflexivity.
Qed.

Lemma Decoder_init_without_layers_witness :
  exists d, scalar_Decoder 10 512 8 2048 (-3) 20 = Ok d /\ layers d = [] /\
            Decoder_forward scalar_plus d 5 7 None None = Ok 5.
Proof.
  destruct (Decoder_init_without_layers (float := unit) scalar_plus
              (fun _ _ _ => Ok scalar_attention) (fun _ => Ok scalar_layer)
              (fun _ _ _ => Ok scalar_layer) (fun _ => Ok (fun t => t))
              (fun _ _ => Ok scalar_layer)
              10 512 8 2048 (-3) 20 tt (fun t => t) scalar_layer) as [Hi Hf].
  - lia.
  - reflexivity.
  - reflexivity.
  - eexists. split; [exact Hi|]. split; [reflexivity|]. apply Hf.
Defined.

(** ** Claim on the positional encoding *)

Lemma broadcast_dim_same (n : nat) : broadcast_dim n n = Ok n.
Proof. unfold broadcast_dim. by rewrite Nat.eqb_refl. Qed.

Lemma broadcast_dim_one (n : nat) : broadcast_dim n 1 = Ok n.
Proof.
  unfold broadcast_dim. destruct (n =? 1)%nat eqn:E.
  - by apply Nat.eqb_eq in E as ->.
  - reflexivity.
Qed.

Lemma broadcast_index_lt (size i : nat) : (i < size)%nat -> broadcast_index size i = i.
Proof.
  intros H. unfold broadcast_index. destruct (size =? 1)%nat eqn:E; [|done].
  apply Nat.eqb_eq in E. lia.
Qed.

Lemma PositionalEncoding_init_even (dropout : tensor3 -> tensor3) (d_model max_len : Z) :
  0 < d_model -> Z.even d_model = true -> 0 <= max_len ->
  PositionalEncoding_init dropout d_model max_len =
  Ok (mkPositionalEncoding dropout
        (mkTensor3 1 (Z.to_nat max_len) (Z.to_nat d_model)
           (fun _ position feature => pe_entry d_model position feature))).
Proof.
  intros Hd He Hm. unfold PositionalEncoding_init.
  rewrite (proj2 (Z.ltb_ge max_len 0)), (proj2 (Z.ltb_ge d_model 0)) by lia.
  rewrite (proj2 (Z.eqb_neq d_model 0)) by lia.
  rewrite <- Z.negb_even, He. reflexivity.
Qed.



(** C4 (the code on an input of shape [positions, batch, width]): at
    inference, the entry at position [p], batch index [b] and feature [f]
    of the result is the input entry plus the table entry of position [b].
    The signal added is indexed by the batch index; the position index
    plays no part. *)
Theorem PositionalEncoding_forward_entry (d_model max_len : Z) (x : tensor3) :
  0 < d_model -> Z.even d_model = true -> 0 <= max_len ->
  size2 x = Z.to_nat d_model -> (size1 x <= Z.to_nat max_len)%nat ->
  exists self out,
    PositionalEncoding_init (fun t => t) d_model max_len = Ok self /\
    PositionalEncoding_forward self x = Ok out /\
    (size0 out, size1 out, size2 out) = (size0 x, size1 x, size2 x) /\
    forall p b f, (p < size0 x)%nat -> (b < size1 x)%nat -> (f < size2 x)%nat ->
      at3 out p b f = (at3 x p b f + pe_entry d_model b f)%R.
Proof.
  intros Hd He Hm H2 H1.
  rewrite PositionalEncoding_init_even by done.
  eexists _, _. split; [reflexivity|].
  unfold PositionalEncoding_forward, tensor_add, slice_dim1. cbn [pe size0 size1 size2 at3].
  rewrite Nat.min_l by done. rewrite <- H2.
  rewrite !broadcast_dim_same, broadcast_dim_one. cbn [rbind pe_dropout].
  split; [reflexivity|]. split; [reflexivity|].
  intros p b f Hp Hb Hf. cbn [at3].
  by rewrite !broadcast_index_lt by done.
Qed.

Lemma sin_1_nonzero : sin 1 <> 0%R.
Proof.
  apply Rgt_not_eq. apply sin_gt_0; [apply Rlt_0_1|].
  apply Rlt_trans with (PI / 2)%R; [exact PI2_1|exact PI2_Rlt_PI].
Qed.

Lemma PositionalEncoding_forward_entry_witness :
  exists self out,
    PositionalEncoding_init (fun t => t) 2 5000 = Ok self /\
    PositionalEncoding_forward self (zeros3 2 2 2) = Ok out /\
    at3 out 1 0 0 = 0%R /\ at3 out 0 1 0 = sin 1 /\ sin 1 <> 0%R.
Proof.
  destruct (PositionalEncoding_forward_entry 2 5000 (zeros3 2 2 2))
    as (self & out & Hi & Hf & _ & Hat).
  - lia.
  - reflexivity.
  - lia.
  - reflexivity.
  - cbn. lia.
  - exists self, out. split; [exact Hi|]. split; [exact Hf|].
    split; [|split; [|exact sin_1_nonzero]].
    + rewrite Hat by (cbn; lia). cbn [zeros3 at3]. unfold pe_entry, div_term.
      cbn [Nat.even INR]. by rewrite Rmult_0_l, sin_0, Rplus_0_l.
    + rewrite Hat by (cbn; lia). cbn [zeros3 at3]. unfold pe_entry, div_term.
      cbn [Nat.even Nat.div Nat.divmod fst Nat.mul INR].
      by rewrite Rmult_0_l, exp_0, Rmult_1_l, Rplus_0_l.
Defined.

(** ** The built-ins on small inputs *)

Example str_split_runs : str_split "  a dog  runs " = ["a"; "dog"; "runs"].
Proof. reflexivity. Qed.

Example str_split_on_dot :
  str_split_on "."%char "1000268201_693b08cb0e.jpg#0" = ["1000268201_693b08cb0e"; "jpg#0"].
Proof. reflexivity. Qed.

Example str_strip_line :
  str_strip (annotation "1.jpg#0" "A dog") = ("1.jpg#0" ++ String tab "A dog")%string.
Proof. reflexivity. Qed.

Example slice_to_negative :
  slice_to [1; 2; 3; 4] (-1) = [1; 2; 3] /\ slice_to [1; 2; 3; 4] 2 = [1; 2].
Proof. split; reflexivity. Qed.

(** Equal frequencies keep the order by token; a higher frequency comes first. *)
Example Vocab_order :
  itos (Vocab_init (Counter_update ∅ (str_split "b a b c a b d e e")) specials)
  = specials ++ ["b"; "a"; "e"; "c"; "d"].
Proof. vm_compute. reflexivity. Qed.

(** Outside [max_seq_length >= 1]: with 0 the slice [tokens[:-1]] drops
    only the last id and the mask is empty; a negative length raises in
    [torch.ones]. *)
Example encode_tokens_length_zero :
  encode_tokens (Vocab_init ∅ specials) 0 ["a"; "b"] = Ok ([2; 0; 0; 3]%nat, []) /\
  encode_tokens (Vocab_init ∅ specials) (-1) ["a"; "b"] = Raise RuntimeError.
Proof. split; vm_compute; reflexivity. Qed.

(** * Further properties of the data preparation *)

(** ** The two loops of [__preprocess_caption__] *)

Lemma for_each_app {A S} (l1 l2 : list A) (f : S -> A -> M S) (s : S) :
  for_each (l1 ++ l2) f s = bind (for_each l1 f s) (for_each l2 f).
Proof.
  revert s; induction l1 as [|a l1 IH]; intros s; cbn [for_each app].
  - cbn. by destruct (for_each l2 f s).
  - destruct (f s a) as [t [s'|e]]; cbn [bind]; [|reflexivity].
    rewrite IH. destruct (for_each l1 f s') as [t1 [s1|e1]]; cbn [bind].
    + destruct (for_each l2 f s1). by rewrite app_assoc.
    + reflexivity.
Qed.

(** A loop over the values of the mapping with a loop over each value
    inside is one loop over all the strings. *)
Lemma for_each_nested {S} (d : list (string * value)) (body : S -> string -> M S) (s : S) :
  for_each d (fun s '(_, captions) => for_each (iterate captions) body s) s
  = for_each (corpus_strings d) body s.
Proof.
  revert s; induction d as [|[k v] d IH]; intros s; [reflexivity|].
  unfold corpus_strings in *. cbn [for_each map concat]. rewrite for_each_app.
  apply bind_ext. intros s'. apply IH.
Qed.

Lemma count_loop_run (self : LoadFlickerData) (cs : list string) (counter : gmap string nat) :
  for_each cs (count_words self) counter
  = (map Tokenize cs,
     Ok (foldl (fun counter caption => Counter_update counter (tokenizer self caption))
           counter cs)).
Proof.
  revert counter; induction cs as [|c cs IH]; intros counter; [reflexivity|].
  cbn [for_each foldl map]. unfold count_words at 1, tokenize. cbn [bind emit ret app].
  by rewrite IH.
Qed.

Lemma encode_tokens_nonneg (v : Vocab) (M : Z) (words : list string) :
  0 <= M -> exists r, encode_tokens v M words = Ok r.
Proof.
  intros H. unfold encode_tokens. rewrite torch_ones_nonneg by done. cbn [rbind].
  destruct (_ <=? _); by eexists.
Qed.


Lemma encode_body_run (self : LoadFlickerData) (v : Vocab) (c : string)
    (ta : list (list nat)) (am : list (list bool)) :
  encode_body self v (ta, am) c
  = ([Tokenize c],
     match encode_tokens v (max_seq_length self) (tokenizer self c) with
     | Ok (t, m) => Ok (ta ++ [t], am ++ [m])
     | Raise e => Raise e
     end).
Proof.
  unfold encode_body, encode_caption, tokenize. cbn [bind emit ret lift app].
  by destruct (encode_tokens _ _ _) as [[t m]|e].
Qed.

(** The loop that encodes, when no encoding raises: [rs] are the
    encodings it appends. *)
Lemma encode_loop_run (self : LoadFlickerData) (v : Vocab) (cs : list string)
    (ta : list (list nat)) (am : list (list bool)) :
  0 <= max_seq_length self ->
  exists rs,
    Forall2 (fun c r => encode_tokens v (max_seq_length self) (tokenizer self c) = Ok r) cs rs /\
    for_each cs (encode_body self v) (ta, am)
    = (map Tokenize cs, Ok (ta ++ rs.*1, am ++ rs.*2)).
Proof.
  intros HM. revert ta am. induction cs as [|c cs IH]; intros ta am.
  - exists []. split; [constructor|]. cbn. by rewrite !app_nil_r.
  - destruct (encode_tokens_nonneg v (max_seq_length self) (tokenizer self c) HM)
      as [[t m] Ht].
    destruct (IH (ta ++ [t]) (am ++ [m])) as (rs & Hrs & Hrun).
    exists ((t, m) :: rs). split; [by constructor|].
    cbn [for_each]. rewrite encode_body_run, Ht. cbn [bind]. rewrite Hrun.
    cbn. by rewrite <- !app_assoc.
Qed.

(** [__preprocess_caption__] as three steps over the strings of the mapping. *)
Lemma preprocess_caption_flat (self : LoadFlickerData) (d : list (string * value)) :
  preprocess_caption self d
  = (arrays <- (map Tokenize (corpus_strings d) ++ [BuildVocab],
                Ok (Vocab_init (corpus_counter self d) specials)) ;;
     (fun v =>
        arrays <- for_each (corpus_strings d) (encode_body self v) ([], []) ;;
        let '(tokens_arrays, attention_masks) := arrays in
        ret (v, tokens_arrays, attention_masks)) arrays).
Proof.
  unfold preprocess_caption. rewrite for_each_nested, count_loop_run.
  fold (corpus_counter self d). cbn [bind build_vocab emit ret app].
  rewrite for_each_nested.
  rewrite (for_each_same _ _
             (encode_body self (Vocab_init (corpus_counter self d) specials)))
    by (by intros [ta am] c).
  match goal with |- context [bind ?m ?f] => destruct (bind m f) as [t' r] end.
  cbn. by rewrite <- app_assoc.
Qed.

Lemma preprocess_caption_run (self : LoadFlickerData) (d : list (string * value)) :
  0 <= max_seq_length self ->
  let v := Vocab_init (corpus_counter self d) specials in
  exists rs,
    Forall2 (fun c r => encode_tokens v (max_seq_length self) (tokenizer self c) = Ok r)
      (corpus_strings d) rs /\
    preprocess_caption self d
    = (map Tokenize (corpus_strings d) ++ BuildVocab :: map Tokenize (corpus_strings d),
       Ok (v, rs.*1, rs.*2)).
Proof.
  intros HM v. destruct (encode_loop_run self v (corpus_strings d) [] [] HM)
    as (rs & Hrs & Hrun).
  exists rs. split; [exact Hrs|].
  rewrite preprocess_caption_flat. fold v. cbn [bind]. rewrite Hrun. cbn.
  by rewrite app_nil_r, <- app_assoc.
Qed.

(** The vocabulary returned is the one of the whole mapping, whatever the
    length. *)
Lemma preprocess_caption_vocab (self : LoadFlickerData) (d : list (string * value))
    (v : Vocab) (ta : list (list nat)) (am : list (list bool)) :
  outcome (preprocess_caption self d) = Ok (v, ta, am) ->
  v = Vocab_init (corpus_counter self d) specials.
Proof.
  rewrite preprocess_caption_flat. cbn [bind outcome snd].
  destruct (for_each _ _ _) as [t [[ta' am']|e]]; cbn; [|done]. by intros [= <- _ _].
Qed.

Lemma encode_tokens_length (v : Vocab) (M : Z) (words : list string)
    (t : list nat) (m : list bool) :
  1 <= M -> encode_tokens v M words = Ok (t, m) ->
  Z.of_nat (length t) = M /\ Z.of_nat (length m) = M.
Proof.
  intros HM. destruct (Z_le_gt_dec (Z.of_nat (length words) + 2) M) as [Hle|Hgt].
  - rewrite encode_tokens_pad by done. intros [= <- <-].
    cbn [length]. rewrite !length_app, length_map. cbn [length].
    rewrite !length_replicate. lia.
  - rewrite encode_tokens_truncate by lia. intros [= <- <-].
    rewrite length_app, length_take, length_replicate. cbn [length]. rewrite length_map. lia.
Qed.

Lemma Counter_update_keeps (counter : gmap string nat) (tokens : list string) (w : string) :
  is_Some (counter !! w) -> is_Some (Counter_update counter tokens !! w).
Proof.
  revert counter. induction tokens as [|t tokens IH]; intros counter H; [done|].
  cbn [Counter_update foldl]. apply IH. destruct (decide (t = w)) as [->|Hne].
  - rewrite lookup_insert_eq. by eexists.
  - by rewrite lookup_insert_ne.
Qed.

Lemma Counter_update_counts (counter : gmap string nat) (tokens : list string) (w : string) :
  w ∈ tokens -> is_Some (Counter_update counter tokens !! w).
Proof.
  revert counter. induction tokens as [|t tokens IH]; intros counter H.
  - by apply elem_of_nil in H.
  - apply elem_of_cons in H as [->|H]; cbn [Counter_update foldl].
    + apply (Counter_update_keeps _ tokens). rewrite lookup_insert_eq. by eexists.
    + by apply IH.
Qed.

Section CorpusCounter.
Variable self : LoadFlickerData.

Local Abbreviation count :=
  (fun (counter : gmap string nat) (caption : string) =>
     Counter_update counter (tokenizer self caption)).

Lemma count_fold_keeps (cs : list string) (counter : gmap string nat) (w : string) :
  is_Some (counter !! w) -> is_Some (foldl count counter cs !! w).
Proof.
  revert counter. induction cs as [|c cs IH]; intros counter H; [done|].
  cbn [foldl]. apply IH. by apply Counter_update_keeps.
Qed.

Lemma count_fold_counts (cs : list string) (counter : gmap string nat) (c w : string) :
  c ∈ cs -> w ∈ tokenizer self c -> is_Some (foldl count counter cs !! w).
Proof.
  revert counter. induction cs as [|c' cs IH]; intros counter Hc Hw.
  - by apply elem_of_nil in Hc.
  - cbn [foldl]. apply elem_of_cons in Hc as [<-|Hc].
    + apply count_fold_keeps. by apply Counter_update_counts.
    + by apply IH.
Qed.

Lemma count_fold_positive (cs : list string) (counter : gmap string nat) :
  (forall w n, counter !! w = Some n -> (1 <= n)%nat) ->
  forall w n, foldl count counter cs !! w = Some n -> (1 <= n)%nat.
Proof.
  revert counter. induction cs as [|c cs IH]; intros counter H; [done|].
  cbn [foldl]. apply IH. by apply Counter_update_positive.
Qed.

End CorpusCounter.

(** X1: for [0 <= max_seq_length < 2^63], [__preprocess_caption__] does
    not raise; it returns the vocabulary of the whole mapping, and one token array and
    one mask per iterated string, in order: the [i]-th pair is the encoding
    of the [i]-th string with that vocabulary. *)
Theorem preprocess_caption_encodes_each (self : LoadFlickerData)
    (d : list (string * value)) :
  0 <= max_seq_length self < 2 ^ 63 ->
  exists v ta am,
    outcome (preprocess_caption self d) = Ok (v, ta, am) /\
    v = Vocab_init (corpus_counter self d) specials /\
    length ta = length (corpus_strings d) /\
    length am = length (corpus_strings d) /\
    forall i c, corpus_strings d !! i = Some c ->
      exists t m, ta !! i = Some t /\ am !! i = Some m /\
                  outcome (encode_caption self v c) = Ok (t, m).
Proof.
  intros [HM _]. destruct (preprocess_caption_run self d HM) as (rs & Hrs & Hrun).
  eexists _, _, _. split; [by rewrite Hrun|]. split; [reflexivity|].
  pose proof (Forall2_length _ _ _ Hrs) as L.
  split; [by rewrite length_fmap|]. split; [by rewrite length_fmap|].
  intros i c Hc. destruct (Forall2_lookup_l _ _ _ _ _ Hrs Hc) as ([t m] & Hr & He).
  exists t, m. rewrite !list_lookup_fmap, Hr. repeat split.
  by rewrite outcome_encode_caption.
Qed.

Lemma preprocess_caption_encodes_each_witness :
  0 <= max_seq_length dog_loader < 2 ^ 63 /\
  exists v ta am,
    outcome (preprocess_caption dog_loader (data dog_loader)) = Ok (v, ta, am) /\
    length ta = 4%nat.
Proof.
  split; [split; [discriminate|reflexivity]|].
  destruct (preprocess_caption_encodes_each dog_loader (data dog_loader))
    as (v & ta & am & Ho & _ & L & _).
  - split; [discriminate|reflexivity].
  - exists v, ta, am. split; [exact Ho|exact L].
Defined.

(** X2: for [0 <= max_seq_length < 2^63], one run of
    [__preprocess_caption__] calls the tokenizer on every iterated string, builds the vocabulary,
    and calls the tokenizer on every string again: twice per string. *)
Theorem preprocess_caption_tokenizes_twice (self : LoadFlickerData)
    (d : list (string * value)) :
  0 <= max_seq_length self < 2 ^ 63 ->
  trace (preprocess_caption self d)
  = map Tokenize (corpus_strings d) ++ BuildVocab :: map Tokenize (corpus_strings d).
Proof.
  intros [HM _]. destruct (preprocess_caption_run self d HM) as (rs & _ & Hrun).
  by rewrite Hrun.
Qed.

Lemma preprocess_caption_tokenizes_twice_witness :
  0 <= max_seq_length dog_loader < 2 ^ 63 /\
  trace (preprocess_caption dog_loader (data dog_loader))
  = [Tokenize "captions"; Tokenize "image_path"; Tokenize "captions"; Tokenize "image_path";
     BuildVocab;
     Tokenize "captions"; Tokenize "image_path"; Tokenize "captions"; Tokenize "image_path"].
Proof.
  split; [split; [discriminate|reflexivity]|].
  rewrite (preprocess_caption_tokenizes_twice dog_loader (data dog_loader)).
  - reflexivity.
  - split; [discriminate|reflexivity].
Defined.

(** X3: for [max_seq_length >= 1], every token array and every mask that
    [__preprocess_caption__] returns has length [max_seq_length]. *)
Theorem preprocess_caption_fixed_length (self : LoadFlickerData)
    (d : list (string * value)) (v : Vocab) (ta : list (list nat)) (am : list (list bool)) :
  1 <= max_seq_length self ->
  outcome (preprocess_caption self d) = Ok (v, ta, am) ->
  Forall (fun t => Z.of_nat (length t) = max_seq_length self) ta /\
  Forall (fun m => Z.of_nat (length m) = max_seq_length self) am.
Proof.
  intros HM. destruct (preprocess_caption_run self d) as (rs & Hrs & Hrun); [lia|].
  rewrite Hrun. intros [= _ <- <-].
  assert (H : Forall (fun r => Z.of_nat (length r.1) = max_seq_length self /\
                               Z.of_nat (length r.2) = max_seq_length self) rs).
  { apply Forall_forall. intros [t m] Hin.
    apply list_elem_of_lookup in Hin as [i Hi].
    destruct (Forall2_lookup_r _ _ _ _ _ Hrs Hi) as (c & _ & He).
    by apply (encode_tokens_length _ _ _ _ _ HM He). }
  split; apply Forall_fmap; (eapply Forall_impl; [exact H|]); by intros r [? ?].
Qed.

Lemma preprocess_caption_fixed_length_witness :
  exists v ta am,
    outcome (preprocess_caption dog_loader (data dog_loader)) = Ok (v, ta, am) /\
    Forall (fun t => Z.of_nat (length t) = 6) ta.
Proof.
  eexists _, _, _. split; [vm_compute; reflexivity|].
  eapply (preprocess_caption_fixed_length dog_loader (data dog_loader)).
  - vm_compute. discriminate.
  - vm_compute. reflexivity.
Defined.



(** X5: every token of every string that [__preprocess_caption__] encodes
    is listed in the vocabulary it returns: the id of the token maps back
    to the token, so a token is encoded as [<unk>] only if it is the word
    [<unk>] itself. *)
Theorem corpus_tokens_round_trip (self : LoadFlickerData) (d : list (string * value))
    (v : Vocab) (ta : list (list nat)) (am : list (list bool)) (c w : string) :
  outcome (preprocess_caption self d) = Ok (v, ta, am) ->
  c ∈ corpus_strings d -> w ∈ tokenizer self c ->
  itos v !! Vocab_getitem v w = Some w /\
  (Vocab_getitem v w = 0%nat -> w = "<unk>").
Proof.
  intros Ho Hc Hw. apply preprocess_caption_vocab in Ho as ->.
  set (counter := corpus_counter self d).
  assert (Hin : w ∈ itos (Vocab_init counter specials)).
  { destruct (count_fold_counts self (corpus_strings d) ∅ c w Hc Hw) as [n Hn].
    apply (Vocab_lists_counter counter w n); [|exact Hn].
    apply (count_fold_positive self). intros w' n'. by rewrite lookup_empty. }
  destruct (Vocab_getitem_spec counter w) as [[_ Hl]|[Hn _]]; [|done].
  split; [exact Hl|].
  intros H0. rewrite H0, itos_specials in Hl by lia. by injection Hl.
Qed.

Lemma corpus_tokens_round_trip_witness :
  exists v ta am,
    outcome (preprocess_caption dog_loader (data dog_loader)) = Ok (v, ta, am) /\
    itos v !! Vocab_getitem v "image_path" = Some "image_path".
Proof.
  eexists _, _, _. split; [vm_compute; reflexivity|].
  eapply (corpus_tokens_round_trip dog_loader (data dog_loader) _ _ _ "image_path").
  - vm_compute. reflexivity.
  - vm_compute. right. left.
  - vm_compute. left.
Defined.

(** ** The encoder on short captions and on degenerate lengths *)

(** X6: a caption that fits, [len(words) + 2 <= max_seq_length < 2^63],
    is not cut: the ids are [<bos>], the ids of all its words, [<eos>], then [<pad>] up
    to [max_seq_length]; the mask is [true] on the first [len(words) + 2]
    positions and [false] on the padding. *)
Theorem encode_caption_pads (self : LoadFlickerData) (v : Vocab) (caption : string) :
  let M := max_seq_length self in
  let words := tokenizer self caption in
  let n := length words in
  Z.of_nat n + 2 <= M < 2 ^ 63 ->
  outcome (encode_caption self v caption)
  = Ok (Vocab_getitem v "<bos>" :: map (Vocab_getitem v) words
          ++ Vocab_getitem v "<eos>"
          :: replicate (Z.to_nat M - (n + 2)) (Vocab_getitem v "<pad>"),
        replicate (n + 2) true ++ replicate (Z.to_nat M - (n + 2)) false).
Proof.
  intros M words n [H _]. rewrite outcome_encode_caption. by apply encode_tokens_pad.
Qed.

Lemma encode_caption_pads_witness :
  let v := Vocab_init (Counter_update ∅ (str_split "a dog runs")) specials in
  Z.of_nat (length (str_split "a dog")) + 2 <= 7 < 2 ^ 63 /\
  outcome (encode_caption (whitespace_loader 7) v "a dog")
  = Ok ([2; 4; 5; 3; 1; 1; 1]%nat, [true; true; true; true; false; false; false]).
Proof.
  intros v. split; [split; [vm_compute; discriminate|reflexivity]|].
  rewrite (encode_caption_pads (whitespace_loader 7) v "a dog").
  - vm_compute. reflexivity.
  - split; [vm_compute; discriminate|reflexivity].
Defined.

Lemma filter_true_replicate (n : nat) (b : bool) :
  length (filter (fun x => x = true) (replicate n b)) = if b then n else 0%nat.
Proof.
  induction n as [|n IH]; [by destruct b|]. cbn [replicate]. destruct b.
  - rewrite filter_cons_True by done. cbn [length]. by rewrite IH.
  - by rewrite filter_cons_False.
Qed.

(** X7: for [max_seq_length >= 2], every position where the mask is
    [false] holds the [<pad>] id, and the number of [true] mask values is
    the number of words kept plus two. *)
Theorem masked_positions_hold_pad (self : LoadFlickerData) (counter : gmap string nat)
    (caption : string) (ids : list nat) (mask : list bool) :
  let v := Vocab_init counter specials in
  let kept := take (Z.to_nat (max_seq_length self - 2)) (tokenizer self caption) in
  2 <= max_seq_length self ->
  outcome (encode_caption self v caption) = Ok (ids, mask) ->
  (forall i, mask !! i = Some false -> ids !! i = Some (Vocab_getitem v "<pad>")) /\
  length (filter (fun b => b = true) mask) = (length kept + 2)%nat.
Proof.
  intros v kept HM. rewrite outcome_encode_caption, encode_tokens_closed by done.
  fold kept. intros [= <- <-]. split.
  - intros i Hi. apply lookup_app_Some in Hi as [Hi|[Hge Hi]].
    { apply lookup_replicate in Hi as [? _]. done. }
    rewrite length_replicate in Hge, Hi. apply lookup_replicate in Hi as [_ Hi].
    change (Vocab_getitem v "<bos>" :: map (Vocab_getitem v) kept
              ++ Vocab_getitem v "<eos>" :: replicate _ (Vocab_getitem v "<pad>"))
      with ((Vocab_getitem v "<bos>" :: map (Vocab_getitem v) kept)
              ++ Vocab_getitem v "<eos>" :: replicate
                   (Z.to_nat (max_seq_length self) - (length kept + 2))
                   (Vocab_getitem v "<pad>")).
    rewrite lookup_app_r by (cbn [length]; rewrite length_map; lia).
    cbn [length]. rewrite length_map.
    replace (i - S (length kept))%nat with (S (i - (length kept + 2))) by lia.
    cbn [lookup list_lookup]. by apply lookup_replicate_2.
  - rewrite filter_app, length_app, !filter_true_replicate. lia.
Qed.

Lemma masked_positions_hold_pad_witness :
  let v := Vocab_init (Counter_update ∅ (str_split "a dog runs")) specials in
  exists ids mask,
    outcome (encode_caption (whitespace_loader 7) v "a dog") = Ok (ids, mask) /\
    ids !! 5%nat = Some (Vocab_getitem v "<pad>") /\
    length (filter (fun b => b = true) mask) = 4%nat.
Proof.
  intros v. eexists _, _. split; [vm_compute; reflexivity|].
  destruct (masked_positions_hold_pad (whitespace_loader 7)
              (Counter_update ∅ (str_split "a dog runs")) "a dog"
              [2; 4; 5; 3; 1; 1; 1]%nat [true; true; true; true; false; false; false])
    as [Hpad Hcount].
  - vm_compute. discriminate.
  - vm_compute. reflexivity.
  - split; [apply Hpad; reflexivity|exact Hcount].
Defined.

(** X8: with [max_seq_length = 1] every caption is encoded as the single
    id [<eos>] with mask [[true]]: [<bos>] is cut away. *)
Theorem encode_caption_length_one (self : LoadFlickerData) (v : Vocab) (caption : string) :
  max_seq_length self = 1 ->
  outcome (encode_caption self v caption) = Ok ([Vocab_getitem v "<eos>"], [true]).
Proof.
  intros HM. rewrite outcome_encode_caption, HM, encode_tokens_truncate by lia.
  reflexivity.
Qed.

Lemma encode_caption_length_one_witness :
  outcome (encode_caption (whitespace_loader 1) (Vocab_init ∅ specials) "a dog runs")
  = Ok ([3%nat], [true]).
Proof.
  rewrite (encode_caption_length_one (whitespace_loader 1)); reflexivity.
Defined.

(** X9: with [max_seq_length = 0] nothing is cut: the slice
    [tokens[:max_seq_length - 1]] is [tokens[:-1]], so the ids are [<bos>],
    the ids of all the words and [<eos>], and the mask is empty. *)
Theorem encode_caption_length_zero (self : LoadFlickerData) (v : Vocab) (caption : string) :
  max_seq_length self = 0 ->
  outcome (encode_caption self v caption)
  = Ok (Vocab_getitem v "<bos>" :: map (Vocab_getitem v) (tokenizer self caption)
          ++ [Vocab_getitem v "<eos>"],
        []).
Proof.
  intros HM. rewrite outcome_encode_caption, HM.
  unfold encode_tokens, torch_ones, slice_to.
  change (0 <? 0) with false. change (0 - 1) with (-1). change (-1 <? 0) with true.
  cbn [rbind Z.to_nat replicate].
  set (body := Vocab_getitem v "<bos>" :: map (Vocab_getitem v) (tokenizer self caption)).
  change ([Vocab_getitem v "<bos>"] ++ map (Vocab_getitem v) (tokenizer self caption)
            ++ [Vocab_getitem v "<eos>"])
    with (body ++ [Vocab_getitem v "<eos>"]).
  rewrite (proj2 (Z.leb_gt _ _)) by (rewrite length_app; cbn; lia).
  replace (Z.to_nat (Z.of_nat (length (body ++ [Vocab_getitem v "<eos>"])) + -1))
    with (length body) by (rewrite length_app; cbn; lia).
  by rewrite take_app_length.
Qed.

Lemma encode_caption_length_zero_witness :
  outcome (encode_caption (whitespace_loader 0) (Vocab_init ∅ specials) "a dog runs")
  = Ok ([2; 0; 0; 0; 3]%nat, []).
Proof.
  rewrite (encode_caption_length_zero (whitespace_loader 0)); reflexivity.
Defined.

(** ** What [load_data] stores *)

Lemma str_split_on_nonempty (sep : ascii) (s : string) : str_split_on sep s <> [].
Proof.
  induction s as [|c s IH]; cbn [str_split_on]; [done|].
  destruct (str_split_on sep s) as [|h t]; [done|]. by destruct (Ascii.eqb c sep).
Qed.

(** A line is either taken, or it raises [ValueError]. *)
Lemma read_line_cases (d : list (string * list string)) (line : string) :
  (exists entry, parsed_as line entry /\
                 read_line d line = ret (dd_append entry.1 entry.2 d)) \/
  (length (str_split_on tab (str_strip line)) <> 2%nat /\
   read_line d line = raise ValueError).
Proof.
  unfold read_line, parsed_as.
  destruct (str_split_on tab (str_strip line)) as [|i [|c [|x l]]] eqn:E;
    try (right; split; [cbn; lia|reflexivity]).
  pose proof (str_split_on_nonempty "." i) as Hne.
  destruct (str_split_on "." i) as [|image_id rest] eqn:E'; [done|].
  left. exists (image_id, c). split; [|reflexivity]. by exists i, rest.
Qed.

Lemma parsed_as_length (line : string) (entry : string * string) :
  parsed_as line entry -> length (str_split_on tab (str_strip line)) = 2%nat.
Proof. intros (i & rest & -> & _). reflexivity. Qed.

Lemma parsed_as_inj (line : string) (e1 e2 : string * string) :
  parsed_as line e1 -> parsed_as line e2 -> e1 = e2.
Proof.
  intros (i1 & r1 & H1 & H1') (i2 & r2 & H2 & H2').
  rewrite H1 in H2. injection H2 as -> Hc. rewrite H1' in H2'. injection H2' as Hi _.
  destruct e1, e2; simpl in *; congruence.
Qed.

Lemma read_loop_malformed (lines : list string) (d : list (string * list string)) :
  (exists line, line ∈ lines /\ length (str_split_on tab (str_strip line)) <> 2%nat) ->
  outcome (for_each lines read_line d) = Raise ValueError.
Proof.
  revert d. induction lines as [|l lines IH]; intros d (line & Hin & Hbad).
  - by apply elem_of_nil in Hin.
  - cbn [for_each]. rewrite outcome_bind.
    destruct (read_line_cases d l) as [(entry & Hp & ->)|[_ ->]]; [|reflexivity].
    cbn [ret outcome snd]. apply IH. exists line. split; [|exact Hbad].
    apply elem_of_cons in Hin as [->|Hin]; [|exact Hin].
    by apply parsed_as_length in Hp.
Qed.

Lemma read_loop_trace (lines : list string) (d : list (string * list string)) :
  trace (for_each lines read_line d) = [].
Proof.
  revert d. induction lines as [|l lines IH]; intros d; [reflexivity|].
  cbn [for_each]. rewrite trace_bind.
  destruct (read_line_cases d l) as [(entry & _ & ->)|[_ ->]]; [|reflexivity].
  cbn. apply IH.
Qed.

Lemma read_loop_ok (lines : list string) (d : list (string * list string)) :
  Forall (fun line => exists entry, parsed_as line entry) lines ->
  exists d', outcome (for_each lines read_line d) = Ok d'.
Proof.
  intros H. revert d. induction H as [|l lines [e He] _ IH]; intros d.
  - by exists d.
  - cbn [for_each]. rewrite outcome_bind.
    destruct (read_line_cases d l) as [(entry & Hp & ->)|[Hbad _]].
    + cbn. apply IH.
    + by apply parsed_as_length in He.
Qed.

(** X10: a line of the token file that, once stripped, does not consist of
    exactly two tab-separated fields (a blank line, a caption with a tab
    inside) makes the construction raise [ValueError]. *)
Theorem init_malformed_line (fs : string -> option (list string)) (p : string) (M : Z)
    (tok : string -> list string) (lines : list string) (line : string) :
  fs (p ++ "/Flickr8k.token.txt")%string = Some lines ->
  line ∈ lines ->
  length (str_split_on tab (str_strip line)) <> 2%nat ->
  outcome (init fs p M tok) = Raise ValueError.
Proof.
  intros Hfs Hin Hbad. unfold init, load_data. cbn [path].
  rewrite outcome_bind. unfold open_lines at 1. rewrite Hfs. cbn [bind emit ret outcome snd].
  rewrite outcome_bind, read_loop_malformed; [reflexivity|]. by exists line.
Qed.

Lemma init_malformed_line_witness :
  outcome (init (annotation_files "/d" [annotation "1.jpg#0" "A dog"; ""] []) "/d" 6
             str_split)
  = Raise ValueError.
Proof.
  apply (init_malformed_line _ "/d" 6 str_split [annotation "1.jpg#0" "A dog"; ""] "").
  - reflexivity.
  - right. left.
  - vm_compute. discriminate.
Defined.

(** X11: without the token file the construction raises
    [FileNotFoundError]; so it does without the lemma file, once every
    line of the token file has been taken. *)
Theorem init_missing_file (fs : string -> option (list string)) (p : string) (M : Z)
    (tok : string -> list string) :
  fs (p ++ "/Flickr8k.token.txt")%string = None \/
  (exists lines, fs (p ++ "/Flickr8k.token.txt")%string = Some lines /\
                 Forall (fun line => exists entry, parsed_as line entry) lines /\
                 fs (p ++ "/Flickr8k.lemma.token.txt")%string = None) ->
  outcome (init fs p M tok) = Raise FileNotFoundError.
Proof.
  unfold init, load_data. cbn [path]. intros [Hfs|(lines & Hfs & Hok & Hfs')].
  - rewrite outcome_bind. unfold open_lines. by rewrite Hfs.
  - rewrite outcome_bind. unfold open_lines at 1. rewrite Hfs.
    cbn [bind emit ret outcome snd]. rewrite outcome_bind.
    destruct (read_loop_ok lines [] Hok) as [d ->].
    rewrite outcome_bind. unfold open_lines. by rewrite Hfs'.
Qed.

Lemma init_missing_file_witness :
  outcome (init (fun _ => None) "/d" 6 str_split) = Raise FileNotFoundError.
Proof. apply init_missing_file. left. reflexivity. Defined.

Lemma assoc_None {V} (d : list (string * V)) (k : string) :
  assoc d k = None <-> k ∉ d.*1.
Proof.
  induction d as [|[k' v] d IH]; cbn [assoc fmap list_fmap].
  - split; [intros _ H; by apply elem_of_nil in H|done].
  - rewrite not_elem_of_cons. destruct (String.eqb_spec k k') as [->|Hne].
    + split; [done|]. by intros [? _].
    + rewrite IH. cbn. tauto.
Qed.

Lemma assoc_Some_elem {V} (d : list (string * V)) (k : string) (v : V) :
  assoc d k = Some v -> (k, v) ∈ d.
Proof.
  induction d as [|[k' v'] d IH]; cbn [assoc]; [done|].
  destruct (String.eqb_spec k k') as [->|Hne].
  - intros [= ->]. by left.
  - intros H. right. by apply IH.
Qed.

Lemma assoc_snoc {V} (d : list (string * V)) (k k' : string) (v : V) :
  assoc (d ++ [(k, v)]) k' =
  match assoc d k' with
  | Some x => Some x
  | None => if String.eqb k' k then Some v else None
  end.
Proof.
  induction d as [|[k0 v0] d IH]; cbn [assoc app]; [reflexivity|].
  by destruct (String.eqb k' k0).
Qed.

Lemma assoc_dd_append (d : list (string * list string)) (k c k' : string) :
  assoc (dd_append k c d) k' =
  if String.eqb k' k then Some (default [] (assoc d k) ++ [c]) else assoc d k'.
Proof.
  induction d as [|[k0 vs] d IH]; cbn [dd_append assoc].
  - by destruct (String.eqb k' k).
  - destruct (String.eqb_spec k k0) as [E|E]; cbn [assoc]; rewrite ?IH;
      destruct (String.eqb_spec k' k0) as [E1|E1];
      destruct (String.eqb_spec k' k) as [E2|E2]; subst;
      rewrite ?String.eqb_refl; try congruence; try reflexivity.
Qed.

Lemma dd_append_keys (d : list (string * list string)) (k c : string) :
  (dd_append k c d).*1 = match assoc d k with Some _ => d.*1 | None => d.*1 ++ [k] end.
Proof.
  induction d as [|[k0 vs] d IH]; cbn [dd_append assoc fmap list_fmap]; [reflexivity|].
  destruct (String.eqb_spec k k0) as [->|Hne]; [reflexivity|].
  cbn [fmap list_fmap]. fold (fmap (M := list) (@fst string (list string))).
  rewrite IH. by destruct (assoc d k).
Qed.

Lemma dd_append_nonempty (d : list (string * list string)) (k c : string) :
  Forall (fun kv => kv.2 <> []) d -> Forall (fun kv => kv.2 <> []) (dd_append k c d).
Proof.
  induction 1 as [|[k0 vs] d Hv Hd IH]; cbn [dd_append].
  - constructor; [done|constructor].
  - destruct (String.eqb k k0); constructor; try done.
    cbn. intros H. by apply app_eq_nil in H as [_ ?].
Qed.

Lemma groups_dd_append (d : list (string * list string)) (entries : list (string * string))
    (k c : string) :
  groups d entries -> groups (dd_append k c d) (entries ++ [(k, c)]).
Proof.
  intros (Hassoc & Hne & Hnd). repeat split.
  - intros k'. rewrite assoc_dd_append, assoc_snoc, <- Hassoc.
    destruct (String.eqb_spec k' k) as [->|Hk].
    + destruct (assoc d k) as [vs|] eqn:E; cbn; [|reflexivity].
      apply assoc_Some_elem in E. rewrite Forall_forall in Hne.
      specialize (Hne _ E). cbn in Hne. destruct vs; [done|reflexivity].
    + by destruct (assoc d k' ≫= head).
  - by apply dd_append_nonempty.
  - rewrite dd_append_keys. destruct (assoc d k) eqn:E; [done|].
    apply NoDup_app. split; [done|]. split; [|apply NoDup_singleton].
    intros x Hx Hx'. apply list_elem_of_singleton in Hx' as ->.
    by apply assoc_None in E.
Qed.

Lemma read_loop_groups (lines : list string) (d d' : list (string * list string))
    (entries0 : list (string * string)) :
  groups d entries0 ->
  outcome (for_each lines read_line d) = Ok d' ->
  exists entries, Forall2 parsed_as lines entries /\ groups d' (entries0 ++ entries).
Proof.
  revert d entries0. induction lines as [|l lines IH]; intros d entries0 Hg.
  - intros [= <-]. exists []. split; [constructor|]. by rewrite app_nil_r.
  - cbn [for_each]. rewrite outcome_bind.
    destruct (read_line_cases d l) as [([k c] & Hp & ->)|[_ ->]]; [|done].
    cbn [ret outcome snd fst]. intros Ho.
    destruct (IH _ (entries0 ++ [(k, c)]) (groups_dd_append _ _ k c Hg) Ho)
      as (entries & He & Hg').
    exists ((k, c) :: entries). split; [by constructor|].
    by rewrite <- app_assoc in Hg'.
Qed.

(** The data frame, row by row. *)
Lemma to_records_run (p : string) (d : list (string * list string))
    (rows records : list (string * value)) :
  outcome (for_each d (fun rows '(image_id, captions) =>
    let image_path := (p ++ "/Images/" ++ image_id ++ ".jpg")%string in
    c <- first_caption captions ;;
    ret (rows ++ [(image_id, RecordDict [("captions", c); ("image_path", image_path)])]))
    rows) = Ok records ->
  exists new, records = rows ++ new /\
    Forall2 (fun kv r => r.1 = kv.1 /\ exists c, head kv.2 = Some c /\
                                                 r.2 = record_of p kv.1 c) d new.
Proof.
  revert rows. induction d as [|[k vs] d IH]; intros rows; cbn [for_each].
  - intros [= <-]. exists []. split; [by rewrite app_nil_r|constructor].
  - rewrite outcome_bind. destruct vs as [|c vs]; [done|]. cbn [first_caption].
    cbn [bind ret outcome snd]. intros Ho. apply IH in Ho as (new & -> & Hnew).
    eexists (_ :: new). split; [by rewrite <- app_assoc|].
    constructor; [|exact Hnew]. split; [reflexivity|]. by exists c.
Qed.

Lemma assoc_records (p : string) (d : list (string * list string))
    (records : list (string * value)) (k : string) :
  Forall2 (fun kv r => r.1 = kv.1 /\ exists c, head kv.2 = Some c /\
                                               r.2 = record_of p kv.1 c) d records ->
  assoc records k = record_of p k <$> (assoc d k ≫= head).
Proof.
  induction 1 as [|[k0 vs] [k1 r] d records (Hk & c & Hc & Hr) _ IH]; [reflexivity|].
  cbn in Hk, Hc, Hr. subst k1 r. cbn [assoc].
  destruct (String.eqb_spec k k0) as [->|Hne]; [|exact IH]. cbn. by rewrite Hc.
Qed.

(** What a successful construction has read and stored. *)
Lemma init_groups (fs : string -> option (list string)) (p : string) (M : Z)
    (tok : string -> list string) (self : LoadFlickerData) (l1 l2 : list string) :
  outcome (init fs p M tok) = Ok self ->
  fs (p ++ "/Flickr8k.token.txt")%string = Some l1 ->
  fs (p ++ "/Flickr8k.lemma.token.txt")%string = Some l2 ->
  exists entries d,
    Forall2 parsed_as (l1 ++ l2) entries /\ groups d entries /\
    Forall2 (fun kv r => r.1 = kv.1 /\ exists c, head kv.2 = Some c /\
                                                 r.2 = record_of p kv.1 c) d (data self).
Proof.
  intros Ho H1 H2. revert Ho. unfold init, load_data. cbn [path tokenizer vocab max_seq_length].
  rewrite outcome_bind. unfold open_lines at 1. rewrite H1. cbn [bind emit ret outcome snd].
  rewrite outcome_bind. destruct (outcome (for_each l1 read_line [])) as [d1|] eqn:E1; [|done].
  rewrite outcome_bind. unfold open_lines at 1. rewrite H2. cbn [bind emit ret outcome snd].
  rewrite outcome_bind. destruct (outcome (for_each l2 read_line d1)) as [d2|] eqn:E2; [|done].
  rewrite outcome_bind. destruct (outcome (to_records p d2)) as [records|] eqn:E3; [|done].
  cbn. intros [= <-]. cbn [data].
  assert (G0 : groups [] []) by (repeat split; constructor).
  destruct (read_loop_groups l1 [] d1 [] G0 E1) as (e1 & He1 & G1).
  destruct (read_loop_groups l2 d1 d2 _ G1 E2) as (e2 & He2 & G2).
  apply to_records_run in E3 as (new & -> & Hnew).
  exists (e1 ++ e2), d2. split; [by apply Forall2_app|]. split; [exact G2|exact Hnew].
Qed.

Lemma init_files (fs : string -> option (list string)) (p : string) (M : Z)
    (tok : string -> list string) (self : LoadFlickerData) :
  outcome (init fs p M tok) = Ok self ->
  exists l1 l2, fs (p ++ "/Flickr8k.token.txt")%string = Some l1 /\
                fs (p ++ "/Flickr8k.lemma.token.txt")%string = Some l2.
Proof.
  unfold init, load_data. cbn [path].
  rewrite outcome_bind. unfold open_lines at 1.
  destruct (fs (p ++ "/Flickr8k.token.txt")%string) as [l1|]; [|done].
  cbn [bind emit ret outcome snd].
  rewrite outcome_bind. destruct (outcome (for_each l1 read_line [])) as [d1|]; [|done].
  rewrite outcome_bind. unfold open_lines at 1.
  destruct (fs (p ++ "/Flickr8k.lemma.token.txt")%string) as [l2|]; [|done].
  intros _. by exists l1, l2.
Qed.

(** X12: after a successful construction the keys of [self.data] are
    pairwise distinct, and the record stored under an image id [k] is
    [{'captions': c, 'image_path': path + '/Images/' + k + '.jpg'}] for some
    caption [c]. *)
Theorem init_records (fs : string -> option (list string)) (p : string) (M : Z)
    (tok : string -> list string) (self : LoadFlickerData) :
  outcome (init fs p M tok) = Ok self ->
  NoDup (data self).*1 /\
  Forall (fun kv => exists c, kv.2 = record_of p kv.1 c) (data self).
Proof.
  intros Ho. destruct (init_files _ _ _ _ _ Ho) as (l1 & l2 & H1 & H2).
  destruct (init_groups _ _ _ _ _ _ _ Ho H1 H2) as (entries & d & _ & (_ & _ & Hnd) & Hrec).
  split.
  - replace (data self).*1 with d.*1; [exact Hnd|].
    clear -Hrec. induction Hrec as [|kv r d rs [Hk _] _ IH]; [reflexivity|].
    cbn. by rewrite IH, Hk.
  - clear -Hrec. induction Hrec as [|kv r d rs (Hk & c & _ & Hr) _ IH]; constructor; [|exact IH].
    exists c. by rewrite Hk.
Qed.

Lemma init_records_witness :
  NoDup (data dog_loader).*1 /\
  Forall (fun kv => exists c, kv.2 = record_of "/Flicker8k_Dataset" kv.1 c) (data dog_loader).
Proof.
  apply (init_records dog_files "/Flicker8k_Dataset" 6 str_split).
  vm_compute. reflexivity.
Defined.

Lemma init_entries (fs : string -> option (list string)) (p : string) (M : Z)
    (tok : string -> list string) (self : LoadFlickerData) (l1 l2 : list string) :
  outcome (init fs p M tok) = Ok self ->
  fs (p ++ "/Flickr8k.token.txt")%string = Some l1 ->
  fs (p ++ "/Flickr8k.lemma.token.txt")%string = Some l2 ->
  exists entries,
    Forall2 parsed_as (l1 ++ l2) entries /\
    forall k, assoc (data self) k = record_of p k <$> assoc entries k.
Proof.
  intros Ho H1 H2.
  destruct (init_groups _ _ _ _ _ _ _ Ho H1 H2) as (entries & d & He & (Ha & _ & _) & Hrec).
  exists entries. split; [exact He|]. intros k.
  by rewrite (assoc_records p d (data self) k Hrec), Ha.
Qed.

(** X13: after a successful construction, [self.data] has a record for an
    image id exactly when a line of either annotation file names that id,
    and the caption of the record is the caption of the first such line,
    the lines of the token file coming before those of the lemma file. *)
Theorem init_first_caption (fs : string -> option (list string)) (p : string) (M : Z)
    (tok : string -> list string) (self : LoadFlickerData) (l1 l2 : list string) :
  outcome (init fs p M tok) = Ok self ->
  fs (p ++ "/Flickr8k.token.txt")%string = Some l1 ->
  fs (p ++ "/Flickr8k.lemma.token.txt")%string = Some l2 ->
  exists entries,
    Forall2 parsed_as (l1 ++ l2) entries /\
    forall k, assoc (data self) k = record_of p k <$> assoc entries k.
Proof.
  apply init_entries.
Qed.

Lemma init_first_caption_witness :
  exists entries,
    Forall2 parsed_as
      ([annotation "1.jpg#0" "A dog runs"; annotation "1.jpg#1" "The dog is fast";
        annotation "2.jpg#0" "A cat sleeps"]
       ++ [annotation "1.jpg#0" "A dog run"; annotation "2.jpg#0" "A cat sleep"]) entries /\
    assoc (data dog_loader) "1" = record_of "/Flicker8k_Dataset" "1" <$> assoc entries "1".
Proof.
  destruct (init_first_caption dog_files "/Flicker8k_Dataset" 6 str_split dog_loader
              [annotation "1.jpg#0" "A dog runs"; annotation "1.jpg#1" "The dog is fast";
               annotation "2.jpg#0" "A cat sleeps"]
              [annotation "1.jpg#0" "A dog run"; annotation "2.jpg#0" "A cat sleep"])
    as (entries & He & Ha).
  - vm_compute. reflexivity.
  - reflexivity.
  - reflexivity.
  - exists entries. split; [exact He|apply Ha].
Defined.

(** ** The errors of a retrieval *)

(** X14: for [0 <= max_seq_length < 2^63] and an item that is not a key
    of [self.data] (an integer index, [None], or a string, plain or with
    [__index__], that is no image id), [__getitem__] raises [KeyError]
    after the whole preprocessing, without reading an image. *)
Theorem getitem_KeyError (image : Type) (preprocess_image : string -> result image)
    (self : LoadFlickerData) (item : obj) :
  0 <= max_seq_length self < 2 ^ 63 ->
  (forall k, item = PStr k \/ (exists i, item = PStrIndex k i) ->
             assoc (data self) k = None) ->
  getitem image preprocess_image self item
  = (map Tokenize (corpus_strings (data self))
       ++ BuildVocab :: map Tokenize (corpus_strings (data self)),
     Raise KeyError).
Proof.
  intros [HM _] Hk. unfold getitem.
  destruct (preprocess_caption_run self (data self) HM) as (rs & _ & ->).
  cbn [bind].
  assert (E : dict_getitem (data self) item = Raise KeyError).
  { destruct item as [z|k| |k i]; cbn; [reflexivity| |reflexivity| ].
    - by rewrite (Hk k (or_introl eq_refl)).
    - by rewrite (Hk k (or_intror (ex_intro _ i eq_refl))). }
  rewrite E. cbn. by rewrite app_nil_r.
Qed.

Lemma getitem_KeyError_witness :
  0 <= max_seq_length dog_loader < 2 ^ 63 /\
  outcome (getitem unit (fun _ => Ok tt) dog_loader (PInt 0)) = Raise KeyError.
Proof.
  split; [split; [discriminate|reflexivity]|].
  rewrite (getitem_KeyError unit (fun _ => Ok tt) dog_loader (PInt 0)).
  - reflexivity.
  - split; [discriminate|reflexivity].
  - intros k [H|[i H]]; discriminate H.
Defined.

(** X15: for [0 <= max_seq_length < 2^63] and an item that is a plain
    [str] and a key of [self.data], [__getitem__] reads the image of that
    record and then raises: the error of the image reader if it fails,
    [TypeError] from [tokens_arrays[item]] otherwise. *)
Theorem getitem_TypeError (image : Type) (preprocess_image : string -> result image)
    (self : LoadFlickerData) (k : string) (record : value) (image_path : string) :
  0 <= max_seq_length self < 2 ^ 63 ->
  assoc (data self) k = Some record ->
  value_getitem record "image_path" = Ok image_path ->
  getitem image preprocess_image self (PStr k)
  = (map Tokenize (corpus_strings (data self))
       ++ BuildVocab :: map Tokenize (corpus_strings (data self)) ++ [ReadImage image_path],
     match preprocess_image image_path with
     | Ok _ => Raise TypeError
     | Raise e => Raise e
     end).
Proof.
  intros [HM _] Hk Hp. unfold getitem.
  destruct (preprocess_caption_run self (data self) HM) as (rs & _ & ->).
  cbn [bind dict_getitem lift]. rewrite Hk. cbn [bind]. rewrite Hp. cbn [bind emit].
  destruct (preprocess_image image_path) as [img|e]; cbn;
    by rewrite ?app_nil_r, <- ?app_assoc.
Qed.

Lemma getitem_TypeError_witness :
  0 <= max_seq_length dog_loader < 2 ^ 63 /\
  outcome (getitem unit (fun _ => Ok tt) dog_loader (PStr "2")) = Raise TypeError.
Proof.
  split; [split; [discriminate|reflexivity]|].
  rewrite (getitem_TypeError unit (fun _ => Ok tt) dog_loader "2"
             (record_of "/Flicker8k_Dataset" "2" "A cat sleeps")
             "/Flicker8k_Dataset/Images/2.jpg").
  - reflexivity.
  - split; [discriminate|reflexivity].
  - reflexivity.
  - reflexivity.
Defined.

(** ** The loaded mapping and its encoding *)

Lemma corpus_strings_stored (d : list (string * value)) :
  stored_shape d ->
  corpus_strings d = concat (replicate (length d) ["captions"; "image_path"]).
Proof.
  intros H%stored_shape_iterate. unfold corpus_strings.
  induction H as [|kv d Hkv _ IH]; [reflexivity|].
  cbn [map concat length replicate]. by rewrite Hkv, IH.
Qed.

Lemma length_concat_replicate {A} (n : nat) (l : list A) :
  length (concat (replicate n l)) = (n * length l)%nat.
Proof. induction n as [|n IH]; [reflexivity|]. cbn. rewrite length_app, IH. lia. Qed.

(** X22: on a loaded dataset of [n] images and [0 <= max_seq_length < 2^63],
    [__preprocess_caption__(self.data)] returns [2 n] token arrays and
    [2 n] masks, two per image: those of the words "captions" and
    "image_path". The array at index [i] does not belong to image [i]. *)
Theorem loaded_token_arrays (fs : string -> option (list string)) (p : string) (M : Z)
    (tok : string -> list string) (self : LoadFlickerData) :
  outcome (init fs p M tok) = Ok self -> 0 <= M < 2 ^ 63 ->
  exists v ta am,
    outcome (preprocess_caption self (data self)) = Ok (v, ta, am) /\
    length ta = (2 * length (data self))%nat /\
    length am = (2 * length (data self))%nat /\
    forall i t, ta !! i = Some t ->
      outcome (encode_caption self v (if Nat.even i then "captions" else "image_path"))
      = Ok (t, default [] (am !! i)).
Proof.
  intros (_ & HM & _ & Hs)%init_fields [H0 _]. rewrite <- HM in H0.
  destruct (preprocess_caption_run self (data self) H0) as (rs & Hrs & Hrun).
  rewrite (corpus_strings_stored _ Hs) in Hrs.
  pose proof (Forall2_length _ _ _ Hrs) as L.
  rewrite length_concat_replicate in L. cbn [length] in L.
  exists (Vocab_init (corpus_counter self (data self)) specials), rs.*1, rs.*2.
  split; [by rewrite Hrun|].
  split; [rewrite length_fmap; lia|]. split; [rewrite length_fmap; lia|].
  intros i t. rewrite !list_lookup_fmap.
  destruct (rs !! i) as [[t' m]|] eqn:Hi; [|done]. intros [= <-].
  change (default [] (snd <$> Some (t', m))) with m.
  destruct (Forall2_lookup_r _ _ _ _ _ Hrs Hi) as (c & Hc & He).
  rewrite outcome_encode_caption.
  replace (if Nat.even i then "captions" else "image_path") with c; [exact He|].
  clear -Hc. revert i Hc. induction (length (data self)) as [|n IH]; intros i; [done|].
  cbn [replicate concat app]. destruct i as [|[|i]]; cbn [lookup list_lookup].
  - by intros [= <-].
  - by intros [= <-].
  - intros H. rewrite Nat.even_succ_succ. by apply IH.
Qed.

Lemma loaded_token_arrays_witness :
  outcome (init dog_files "/Flicker8k_Dataset" 6 str_split) = Ok dog_loader /\
  0 <= 6 < 2 ^ 63 /\
  exists v ta am,
    outcome (preprocess_caption dog_loader (data dog_loader)) = Ok (v, ta, am) /\
    length ta = 4%nat.
Proof.
  split; [vm_compute; reflexivity|]. split; [split; [discriminate|reflexivity]|].
  destruct (loaded_token_arrays dog_files "/Flicker8k_Dataset" 6 str_split dog_loader)
    as (v & ta & am & Ho & L & _).
  - vm_compute. reflexivity.
  - split; [discriminate|reflexivity].
  - exists v, ta, am. split; [exact Ho|exact L].
Defined.

Lemma str_split_on_head (sep : ascii) (s h : string) (t : list string) :
  str_split_on sep s = h :: t -> ~ In sep (list_ascii_of_string h).
Proof.
  revert h t. induction s as [|c s IH]; intros h t; cbn [str_split_on].
  - intros [= <- _]. cbn. tauto.
  - destruct (str_split_on sep s) as [|h' t'] eqn:E.
    + intros [= <- _]. cbn. intros [->|[]]. by apply (str_split_on_nonempty sep s).
    + destruct (Ascii.eqb_spec c sep) as [->|Hne].
      * intros [= <- _]. cbn. tauto.
      * intros [= <- _]. cbn. intros [?|Hin]; [done|]. by apply (IH h' t').
Qed.

(** X23: an image id is the file name up to its first dot: no key of a
    loaded [self.data] contains a dot, so the lines of two files whose
    names agree up to the first dot are stored under one key. *)
Theorem init_keys_without_dot (fs : string -> option (list string)) (p : string) (M : Z)
    (tok : string -> list string) (self : LoadFlickerData) (k : string) :
  outcome (init fs p M tok) = Ok self ->
  k ∈ (data self).*1 ->
  ~ In "."%char (list_ascii_of_string k).
Proof.
  intros Ho Hk. destruct (init_files _ _ _ _ _ Ho) as (l1 & l2 & H1 & H2).
  destruct (init_entries _ _ _ _ _ _ _ Ho H1 H2) as (entries & He & Ha).
  destruct (assoc (data self) k) as [r|] eqn:E; [|by apply assoc_None in E].
  rewrite Ha in E. destruct (assoc entries k) as [c|] eqn:E'; [|done].
  apply assoc_Some_elem, list_elem_of_lookup in E' as [i Hi].
  destruct (Forall2_lookup_r _ _ _ _ _ He Hi) as (line & _ & (f & rest & _ & Hsplit)).
  by apply (str_split_on_head "." f k rest).
Qed.

Lemma init_keys_without_dot_witness :
  ~ In "."%char (list_ascii_of_string "2").
Proof.
  apply (init_keys_without_dot dog_files "/Flicker8k_Dataset" 6 str_split dog_loader "2").
  - vm_compute. reflexivity.
  - right. left.
Defined.

(** Two files whose names share the part before the first dot: one record,
    with the caption of the first line. *)
Example init_merges_dotted_names :
  outcome (init (annotation_files "/d"
                   [annotation "beach.1.jpg#0" "Sand"; annotation "beach.2.jpg#0" "Waves"] [])
             "/d" 6 str_split)
  = Ok (mkLoadFlickerData "/d" [("beach", record_of "/d" "beach" "Sand")] str_split None 6).
Proof. vm_compute. reflexivity. Qed.

(** * Further properties of the model *)

Section DecoderConstruction.
Context {tensor float image device : Type}.
Variable tensor_plus : tensor -> tensor -> result tensor.
Variable new_MultiheadAttention : Z -> Z -> float -> result (attention tensor).
Variable new_LayerNorm : Z -> result (tensor -> result tensor).
Variable new_PositionwiseFF : Z -> Z -> float -> result (tensor -> result tensor).
Variable new_Dropout : float -> result (tensor -> tensor).
Variable new_Linear : Z -> Z -> result (tensor -> result tensor).
Variable new_Encoder : Z -> result (image -> result tensor).
Variable to_device : device -> result unit.
Variable dropout_default : float.

Local Abbreviation layer_init :=
  (TransformerDecoderLayer_init tensor float new_MultiheadAttention new_LayerNorm
     new_PositionwiseFF new_Dropout).
Local Abbreviation layers_init :=
  (new_layers tensor float new_MultiheadAttention new_LayerNorm new_PositionwiseFF
     new_Dropout).
Local Abbreviation decoder_init :=
  (Decoder_init new_MultiheadAttention new_LayerNorm new_PositionwiseFF new_Dropout
     new_Linear).

Lemma new_layers_length (d_model n_head d_ffn : Z) (dropout : float) (r : list Z)
    (ls : list (TransformerDecoderLayer tensor)) :
  layers_init d_model n_head d_ffn dropout r = Ok ls -> length ls = length r.
Proof.
  revert ls. induction r as [|x r IH]; intros ls; cbn [new_layers rbind].
  - by intros [= <-].
  - destruct (layer_init d_model n_head d_ffn dropout) as [layer|]; [|done].
    destruct (layers_init d_model n_head d_ffn dropout r) as [rest|]; [|done].
    intros [= <-]. cbn. by rewrite (IH rest).
Qed.

Lemma range_length (n : Z) : length (range n) = Z.to_nat n.
Proof. unfold range. by rewrite length_map, length_seq. Qed.

Lemma Decoder_init_layers (vocab_size d_model n_head d_ffn num_layers max_seq_length : Z)
    (dropout : float) (d : Decoder tensor) :
  decoder_init vocab_size d_model n_head d_ffn num_layers max_seq_length dropout = Ok d ->
  length (layers d) = Z.to_nat num_layers.
Proof.
  unfold Decoder_init, rbind.
  destruct (layers_init d_model n_head d_ffn dropout (range num_layers)) as [ls|] eqn:E;
    [|done].
  destruct (new_Dropout dropout); [|done].
  destruct (new_Linear d_model vocab_size); [|done].
  intros [= <-]. cbn. by rewrite (new_layers_length _ _ _ _ _ _ E), range_length.
Qed.

(** X16: a decoder that the constructor returns has exactly [num_layers]
    layers (none when [num_layers] is negative). *)
Theorem Decoder_init_layer_count
    (vocab_size d_model n_head d_ffn num_layers max_seq_length : Z)
    (dropout : float) (d : Decoder tensor) :
  decoder_init vocab_size d_model n_head d_ffn num_layers max_seq_length dropout = Ok d ->
  length (layers d) = Z.to_nat num_layers.
Proof. apply Decoder_init_layers. Qed.

(** X17: for [num_layers >= 1], an error of [MultiheadAttention] on
    [(d_model, n_head, dropout)], such as a width that the number of heads
    does not divide, is the error of the decoder's constructor. *)
Theorem Decoder_init_attention_error
    (vocab_size d_model n_head d_ffn num_layers max_seq_length : Z)
    (dropout : float) (e : exn) :
  1 <= num_layers ->
  new_MultiheadAttention d_model n_head dropout = Raise e ->
  decoder_init vocab_size d_model n_head d_ffn num_layers max_seq_length dropout = Raise e.
Proof.
  intros Hn He. unfold Decoder_init, range.
  replace (Z.to_nat num_layers) with (S (Z.to_nat (num_layers - 1))) by lia.
  cbn [seq map new_layers]. unfold TransformerDecoderLayer_init. by rewrite He.
Qed.

(** The loop of [Decoder.forward] on a non-empty list of layers: the
    result of the first layer decides. *)
Lemma Decoder_layers_first (layer : TransformerDecoderLayer tensor)
    (rest : list (TransformerDecoderLayer tensor)) (tgt memory : tensor)
    (tgt_mask memory_mask : option tensor) :
  Decoder_layers tensor_plus (layer :: rest) tgt memory tgt_mask memory_mask
  = match TransformerDecoderLayer_forward tensor_plus layer tgt memory tgt_mask memory_mask with
    | Ok _ => Raise ValueError
    | Raise e => Raise e
    end.
Proof.
  cbn [Decoder_layers].
  destruct (TransformerDecoderLayer_forward tensor_plus layer tgt memory tgt_mask memory_mask)
    as [t|e] eqn:E; cbn [rbind]; [|reflexivity].
  by rewrite (unpack3_pair t) by (by eapply TransformerDecoderLayer_forward_pair).
Qed.

(** X18: [Decoder.forward] on a decoder with layers is decided by its first
    layer alone: it raises the error of that layer if that layer raises, and
    [ValueError] otherwise. The other layers and the output projection have
    no part in the result. *)
Theorem Decoder_forward_first_layer (self : Decoder tensor)
    (layer : TransformerDecoderLayer tensor) (rest : list (TransformerDecoderLayer tensor))
    (tgt memory : tensor) (tgt_mask memory_mask : option tensor) :
  layers self = layer :: rest ->
  Decoder_forward tensor_plus self tgt memory tgt_mask memory_mask
  = match TransformerDecoderLayer_forward tensor_plus layer tgt memory tgt_mask memory_mask with
    | Ok _ => Raise ValueError
    | Raise e => Raise e
    end.
Proof.
  intros Hl. unfold Decoder_forward. rewrite Hl, Decoder_layers_first.
  by destruct (TransformerDecoderLayer_forward _ _ _ _ _ _).
Qed.

Local Abbreviation model_init :=
  (create_model new_MultiheadAttention new_LayerNorm new_PositionwiseFF new_Dropout
     new_Linear new_Encoder to_device dropout_default).

Lemma create_model_inv (device_ : device)
    (vocab_size max_seq_length d_model n_head d_ffn : Z) (dropout : float)
    (model : ImageClassificationModel tensor float image) :
  model_init device_ vocab_size max_seq_length d_model n_head d_ffn dropout = Ok model ->
  exists encoder decoder,
    new_Encoder 512 = Ok encoder /\
    decoder_init vocab_size d_model n_head d_ffn 6 max_seq_length dropout = Ok decoder /\
    model = mkImageClassificationModel tensor float image encoder decoder vocab_size
              max_seq_length 512 8 2048 dropout_default 224.
Proof.
  unfold create_model, rbind.
  destruct (new_Encoder 512) as [encoder|]; [|done].
  destruct (decoder_init _ _ _ _ _ _ _) as [decoder|]; [|done].
  destruct (to_device device_); [|done].
  intros [= <-]. by exists encoder, decoder.
Qed.

(** X19: the forward pass of a model that [create_model] returns raises
    for every image and target: the model has six decoder layers, so what
    the encoder does not raise itself ends in the error of the first decoder
    layer or in [ValueError]. *)
Theorem create_model_forward_raises (device_ : device)
    (vocab_size max_seq_length d_model n_head d_ffn : Z) (dropout : float)
    (model : ImageClassificationModel tensor float image)
    (image_ : image) (tgt : tensor) (tgt_mask : option tensor) :
  model_init device_ vocab_size max_seq_length d_model n_head d_ffn dropout = Ok model ->
  length (layers (model_decoder model)) = 6%nat /\
  raises (ImageClassificationModel_forward tensor_plus model image_ tgt tgt_mask).
Proof.
  intros (encoder & decoder & _ & Hd & ->)%create_model_inv.
  pose proof (Decoder_init_layers _ _ _ _ _ _ _ _ Hd) as L. split; [exact L|].
  unfold ImageClassificationModel_forward, Decoder_forward. cbn [model_encoder model_decoder].
  destruct (encoder image_) as [features|e]; cbn [rbind]; [|by eexists].
  destruct (layers decoder) as [|layer rest]; [discriminate L|].
  rewrite Decoder_layers_first. unfold raises.
  destruct (TransformerDecoderLayer_forward _ _ _ _ _ _); by eexists.
Qed.

(** [create_model] passes [d_model], [n_head], [d_ffn] and [dropout]
    to the decoder only: the model it returns records the widths 512, 8
    and 2048, the default dropout and the image size 224 whatever the
    arguments are, and its encoder is built for width 512. *)
Theorem create_model_recorded_sizes (device_ : device)
    (vocab_size max_seq_length d_model n_head d_ffn : Z) (dropout : float)
    (model : ImageClassificationModel tensor float image) :
  model_init device_ vocab_size max_seq_length d_model n_head d_ffn dropout = Ok model ->
  model_d_model model = 512 /\
  model_n_head tensor float image model = 8 /\
  model_d_ffn tensor float image model = 2048 /\
  model_dropout tensor float image model = dropout_default /\
  model_image_size tensor float image model = 224 /\
  new_Encoder 512 = Ok (model_encoder tensor float image model) /\
  decoder_init vocab_size d_model n_head d_ffn 6 max_seq_length dropout
  = Ok (model_decoder model).
Proof.
  intros (encoder & decoder & He & Hd & ->)%create_model_inv. by repeat split.
Qed.

End DecoderConstruction.

Lemma Decoder_init_layer_count_witness :
  exists d, scalar_Decoder 10 512 8 2048 6 20 = Ok d /\ length (layers d) = 6%nat.
Proof.
  eexists. split; [reflexivity|].
  apply (Decoder_init_layer_count (float := unit)
           (fun _ _ _ => Ok scalar_attention) (fun _ => Ok scalar_layer)
           (fun _ _ _ => Ok scalar_layer) (fun _ => Ok (fun t => t))
           (fun _ _ => Ok scalar_layer) 10 512 8 2048 6 20 tt).
  reflexivity.
Defined.

Lemma Decoder_init_attention_error_witness :
  Decoder_init (tensor := Z) (float := unit)
    (fun d_model n_head _ =>
       if d_model mod n_head =? 0 then Ok scalar_attention else Raise AssertionError)
    (fun _ => Ok scalar_layer) (fun _ _ _ => Ok scalar_layer) (fun _ => Ok (fun t => t))
    (fun _ _ => Ok scalar_layer) 10 512 7 2048 6 20 tt
  = Raise AssertionError.
Proof. apply Decoder_init_attention_error; [lia|reflexivity]. Defined.

Lemma Decoder_forward_first_layer_witness :
  exists d, scalar_Decoder 10 512 8 2048 2 20 = Ok d /\
            Decoder_forward scalar_plus d 5 7 None None = Raise ValueError.
Proof.
  eexists. split; [reflexivity|].
  erewrite (Decoder_forward_first_layer scalar_plus); [|reflexivity]. reflexivity.
Defined.

Lemma create_model_forward_raises_witness :
  exists model, scalar_model 10 20 512 8 2048 = Ok model /\
                raises (ImageClassificationModel_forward scalar_plus model 1 5 None).
Proof.
  eexists. split; [reflexivity|].
  apply (create_model_forward_raises (device := unit) scalar_plus
           (fun _ _ _ => Ok scalar_attention) (fun _ => Ok scalar_layer)
           (fun _ _ _ => Ok scalar_layer) (fun _ => Ok (fun t => t))
           (fun _ _ => Ok scalar_layer) (fun _ => Ok scalar_layer) (fun _ => Ok tt) tt
           tt 10 20 512 8 2048 tt).
  reflexivity.
Defined.

Lemma create_model_recorded_sizes_witness :
  exists model, scalar_model 10 20 256 4 1024 = Ok model /\ model_d_model model = 512.
Proof.
  eexists. split; [reflexivity|].
  apply (create_model_recorded_sizes (device := unit)
           (fun _ _ _ => Ok scalar_attention) (fun _ => Ok scalar_layer)
           (fun _ _ _ => Ok scalar_layer) (fun _ => Ok (fun t => t))
           (fun _ _ => Ok scalar_layer) (fun _ => Ok scalar_layer) (fun _ => Ok tt) tt
           tt 10 20 256 4 1024 tt).
  reflexivity.
Defined.

(** ** The positional table *)



(** X21: [forward] bounds dimension 1 of its input, the batch size of the
    documented layout, by [max_len]: an input with more than [max_len]
    entries along that dimension raises [RuntimeError], however short the
    sequence is (sizes of 1 apart, which broadcast). *)
Theorem PositionalEncoding_forward_batch_bound (dropout : tensor3 -> tensor3)
    (d_model max_len : Z) (self : PositionalEncoding) (x : tensor3) :
  PositionalEncoding_init dropout d_model max_len = Ok self ->
  max_len <> 1 -> size1 x <> 1%nat ->
  (Z.to_nat max_len < size1 x)%nat ->
  PositionalEncoding_forward self x = Raise RuntimeError.
Proof.
  unfold PositionalEncoding_init. intros Hi H1 Hx Hlt.
  destruct (_ || _) eqn:E1; [done|]. destruct (d_model =? 0); [done|].
  destruct (_ && _); [done|]. injection Hi as <-.
  apply orb_false_iff in E1 as [Hm%Z.ltb_ge _].
  unfold PositionalEncoding_forward, tensor_add, slice_dim1. cbn [pe size0 size1 size2].
  rewrite Nat.min_r by lia.
  destruct (broadcast_dim (size2 x) (Z.to_nat d_model)) as [n2|e] eqn:E2; cbn [rbind].
  - unfold broadcast_dim at 1.
    rewrite (proj2 (Nat.eqb_neq (size1 x) (Z.to_nat max_len))) by lia.
    rewrite (proj2 (Nat.eqb_neq (size1 x) 1)) by done.
    rewrite (proj2 (Nat.eqb_neq (Z.to_nat max_len) 1)) by lia. reflexivity.
  - unfold broadcast_dim in E2. repeat destruct (_ =? _)%nat; congruence.
Qed.

Lemma PositionalEncoding_forward_batch_bound_witness :
  exists self,
    PositionalEncoding_init (fun t => t) 2 3 = Ok self /\
    PositionalEncoding_forward self (zeros3 1 4 2) = Raise RuntimeError.
Proof.
  eexists. split; [reflexivity|].
  apply (PositionalEncoding_forward_batch_bound (fun t => t) 2 3).
  - reflexivity.
  - lia.
  - cbn. lia.
  - cbn. lia.
Defined.
